(** * gencursor: X11 cursor theme generator (src/Cipher/gencursor.py)

    A shallow embedding of the generator's functions, and the properties
    of its specification proved (or refuted) on that embedding.

    Conventions of the embedding:
    - Python [int] is [Z]; [//] is [Z.div] (both floor), [max] is [Z.max].
    - Python [str] is [string], the bytes of its UTF-8 encoding (the
      encoding of file names and of text files where the generator
      runs); [x in [a, b, c]] is [mem x [a; b; c]].
    - The cursors directory is a finite map from file names to directory
      entries (regular file or symbolic link).
    - Functions that print, write files or can raise run in a small
      state-and-exception monad over the process state. *)

From Stdlib Require Import ZArith List Bool Ascii String DecimalString DecimalPos DecimalZ Lia.
From stdpp Require Import base option gmap strings list fin_maps.

Local Open Scope Z_scope.
Local Open Scope string_scope.

(** ** Python primitives *)

Module Py.

(** [x in l] for a list of strings. *)
Fixpoint mem (x : string) (l : list string) : bool :=
  match l with
  | [] => false
  | y :: l' => if String.eqb x y then true else mem x l'
  end.

(** [sub in s] for strings: [sub] occurs in [s] as a contiguous run. *)
Fixpoint contains (sub s : string) : bool :=
  if String.prefix sub s then true
  else match s with
       | EmptyString => false
       | String _ s' => contains sub s'
       end.

(** [s.endswith(suffix)]. *)
Definition endswith (s suffix : string) : bool :=
  let n := String.length s in
  let k := String.length suffix in
  (k <=? n)%nat && String.eqb (String.substring (n - k) k s) suffix.

(** [str(n)] for an integer. *)
Definition str (n : Z) : string := NilZero.string_of_int (Z.to_int n).

(** The bytes are the encoding of a [str]: well-formed UTF-8, with no
    overlong form, no surrogate and nothing above U+10FFFF. [need]
    continuation bytes are still due, the next one within [lo..hi]. *)
Fixpoint utf8_from (need : nat) (lo hi : N) (s : string) : bool :=
  match s with
  | EmptyString => Nat.eqb need 0
  | String c s' =>
      let b := N_of_ascii c in
      match need with
      | S k => (lo <=? b)%N && (b <=? hi)%N && utf8_from k 128 191 s'
      | O =>
          if (b <? 128)%N then utf8_from 0 128 191 s'
          else if (194 <=? b)%N && (b <=? 223)%N then utf8_from 1 128 191 s'
          else if (b =? 224)%N then utf8_from 2 160 191 s'
          else if (225 <=? b)%N && (b <=? 236)%N then utf8_from 2 128 191 s'
          else if (b =? 237)%N then utf8_from 2 128 159 s'
          else if (238 <=? b)%N && (b <=? 239)%N then utf8_from 2 128 191 s'
          else if (b =? 240)%N then utf8_from 3 144 191 s'
          else if (241 <=? b)%N && (b <=? 243)%N then utf8_from 3 128 191 s'
          else if (b =? 244)%N then utf8_from 3 128 143 s'
          else false
      end
  end.

Definition well_encoded (s : string) : bool := utf8_from 0 128 191 s.

(** A name that [open] takes as a file of the directory itself: it
    holds no [/] and no NUL. *)
Definition plain_name (s : string) : bool :=
  negb (contains "/" s) && negb (contains (String "000" "") s).

(** [s] starts with the bytes of [p]. *)
Fixpoint starts_with (p s : string) : bool :=
  match p with
  | EmptyString => true
  | String a p' =>
      match s with
      | String b s' => Ascii.eqb a b && starts_with p' s'
      | EmptyString => false
      end
  end.

(** The characters [str.split()] separates on, those of [str.isspace],
    each as its bytes: U+0009 to U+000D, U+001C to U+001F, U+0020,
    U+0085, U+00A0, U+1680, U+2000 to U+200A, U+2028, U+2029, U+202F,
    U+205F and U+3000. *)
Definition space_chars : list string :=
  map string_of_list_ascii
    [ ["009"]; ["010"]; ["011"]; ["012"]; ["013"];
      ["028"]; ["029"]; ["030"]; ["031"]; ["032"];
      ["194"; "133"]; ["194"; "160"];
      ["225"; "154"; "128"];
      ["226"; "128"; "128"]; ["226"; "128"; "129"]; ["226"; "128"; "130"];
      ["226"; "128"; "131"]; ["226"; "128"; "132"]; ["226"; "128"; "133"];
      ["226"; "128"; "134"]; ["226"; "128"; "135"]; ["226"; "128"; "136"];
      ["226"; "128"; "137"]; ["226"; "128"; "138"];
      ["226"; "128"; "168"]; ["226"; "128"; "169"]; ["226"; "128"; "175"];
      ["226"; "129"; "159"];
      ["227"; "128"; "128"] ]%char.

(** The length in bytes of the white-space character [s] starts with,
    0 when it starts with none. *)
Definition space_len (s : string) : nat :=
  match List.find (fun p => starts_with p s) space_chars with
  | Some p => String.length p
  | None => O
  end.

Definition emit (cur : string) (rest : list string) : list string :=
  match cur with
  | EmptyString => rest
  | _ => cur :: rest
  end.

(** [s.split()]: the maximal runs without white space, in order. [cur]
    is the run being read, [skip] the bytes still to pass of the
    white-space character being read. *)
Fixpoint split_from (skip : nat) (cur s : string) : list string :=
  match s with
  | EmptyString => emit cur []
  | String c s' =>
      match skip with
      | S k => split_from k cur s'
      | O =>
          match space_len s with
          | O => split_from O (cur +:+ String c "") s'
          | S k => emit cur (split_from k "" s')
          end
      end
  end.

Definition split (s : string) : list string := split_from 0 "" s.

(** The lines of a text file as iteration over it yields them, without
    their end: a line ends at a line feed, at a carriage return, or at
    the two in a row; an end at the end of the text opens no empty
    line. *)
Fixpoint lines_from (cur s : string) : list string :=
  match s with
  | EmptyString => emit cur []
  | String c s' =>
      if Ascii.eqb c "010" then cur :: lines_from "" s'
      else if Ascii.eqb c "013" then
        match s' with
        | String c' s'' =>
            if Ascii.eqb c' "010" then cur :: lines_from "" s''
            else cur :: lines_from "" s'
        | EmptyString => cur :: lines_from "" s'
        end
      else lines_from (cur +:+ String c "") s'
  end.

Definition lines (s : string) : list string := lines_from "" s.

(** [s.startswith(c)] for one character. *)
Definition startswith (s : string) (c : ascii) : bool :=
  match s with
  | String c' _ => Ascii.eqb c' c
  | EmptyString => false
  end.

(** [k in d] and [d[k]] for a dict kept as an association list in
    insertion order; [d[k]] is [None] where Python raises [KeyError]. *)
Fixpoint has_key {V : Type} (k : string) (d : list (string * V)) : bool :=
  match d with
  | [] => false
  | (k', _) :: d' => if String.eqb k k' then true else has_key k d'
  end.

Fixpoint getitem {V : Type} (k : string) (d : list (string * V)) : option V :=
  match d with
  | [] => None
  | (k', v) :: d' => if String.eqb k k' then Some v else getitem k d'
  end.

End Py.

(** ** Hotspot Calculator *)

Definition arrow_names : list string :=
  ["left_ptr"; "arrow"; "default"; "right_ptr"; "top_left_arrow"].
Definition hand_names : list string :=
  ["hand2"; "hand"; "pointer"; "pointing_hand"].
Definition text_names : list string := ["xterm"; "text"; "ibeam"].
Definition cross_names : list string :=
  ["crosshair"; "cross"; "tcross"; "diamond_cross"].
Definition move_names : list string := ["fleur"; "size_all"; "move"].
Definition hresize_names : list string :=
  ["sb_h_double_arrow"; "size_hor"; "h-double-arrow"; "col-resize"].
Definition vresize_names : list string :=
  ["sb_v_double_arrow"; "size_ver"; "v_double_arrow"; "row-resize"].
Definition top_left_names : list string :=
  ["top_left_corner"; "nw-resize"; "size_fdiag"].
Definition top_right_names : list string :=
  ["top_right_corner"; "ne-resize"; "size_bdiag"].
Definition bottom_left_names : list string := ["bottom_left_corner"; "sw-resize"].
Definition bottom_right_names : list string := ["bottom_right_corner"; "se-resize"].
Definition wait_names : list string := ["watch"; "wait"; "progress"].
Definition forbidden_names : list string :=
  ["forbidden"; "not_allowed"; "crossed_circle"].

(** [calculate_hotspot(cursor_name, size)], lines 105-168. *)
Definition calculate_hotspot (cursor_name : string) (size : Z) : Z * Z :=
  let hotspot_x := size / 2 in
  let hotspot_y := size / 2 in
  if Py.mem cursor_name arrow_names then
    (Z.max 1 (size / 16), Z.max 1 (size / 16))
  else if Py.mem cursor_name hand_names then
    (Z.max 1 (size * 6 / 32), Z.max 1 (size / 16))
  else if Py.mem cursor_name text_names then (size / 2, size / 2)
  else if Py.mem cursor_name cross_names then (size / 2, size / 2)
  else if Py.mem cursor_name move_names then (size / 2, size / 2)
  else if Py.mem cursor_name hresize_names then (size / 2, size / 2)
  else if Py.mem cursor_name vresize_names then (size / 2, size / 2)
  else if Py.mem cursor_name top_left_names then
    (Z.max 1 (size / 8), Z.max 1 (size / 8))
  else if Py.mem cursor_name top_right_names then
    (size - Z.max 1 (size / 8), Z.max 1 (size / 8))
  else if Py.mem cursor_name bottom_left_names then
    (Z.max 1 (size / 8), size - Z.max 1 (size / 8))
  else if Py.mem cursor_name bottom_right_names then
    (size - Z.max 1 (size / 8), size - Z.max 1 (size / 8))
  else if Py.mem cursor_name wait_names then (size / 2, size / 2)
  else if Py.mem cursor_name forbidden_names then (size / 2, size / 2)
  else (hotspot_x, hotspot_y).

(** The hotspot computed inline by [create_multisize_cursor_config],
    lines 17-36. *)
Definition basic_hotspot (cursor_name : string) (size : Z) : Z * Z :=
  let hotspot_x := size / 2 in
  let hotspot_y := size / 2 in
  if Py.mem cursor_name ["left_ptr"; "arrow"; "default"] then (1, 1)
  else if Py.mem cursor_name ["hand2"; "hand"; "pointer"] then (8 * size / 32, 1)
  else if Py.mem cursor_name ["xterm"; "text"; "ibeam"] then (size / 2, size / 2)
  else if Py.contains "resize" cursor_name || Py.contains "size" cursor_name
       then (size / 2, size / 2)
  else if String.eqb cursor_name "crosshair" then (size / 2, size / 2)
  else (hotspot_x, hotspot_y).

(** The names whose hotspot is given by an offset formula. *)
Definition offset_names : list string :=
  arrow_names ++ hand_names ++ top_left_names ++ top_right_names
    ++ bottom_left_names ++ bottom_right_names.

(** The size lists of [create_fullsize_cursor_theme], lines 176-178. *)
Definition standard_sizes : list Z := [16; 24; 32; 48; 64; 96; 128].
Definition extended_sizes : list Z :=
  [16; 20; 24; 28; 32; 40; 48; 56; 64; 72; 80; 96; 112; 128].


(** ** Config text *)

Definition nl : string := String "010"%char "".

Definition cursor_file (cursor_name : string) : string := cursor_name +:+ ".cursor".

(** One line of a config file, [f"{size} {hotspot_x} {hotspot_y} {image_file} 100\n"]. *)
Definition config_line (size hotspot_x hotspot_y : Z) (image_file : string) : string :=
  Py.str size +:+ " " +:+ Py.str hotspot_x +:+ " " +:+ Py.str hotspot_y +:+ " "
    +:+ image_file +:+ " 100" +:+ nl.

(** [f"{cursor_name}_{size}x{size}.png"], line 67. *)
Definition scaled_filename (cursor_name : string) (size : Z) : string :=
  cursor_name +:+ "_" +:+ Py.str size +:+ "x" +:+ Py.str size +:+ ".png".

(** ** Process state *)

(** A directory entry: a regular file with its content, or a symbolic
    link with its target (a name in the same directory). *)
Inductive node : Type :=
  | File (content : string)
  | Link (target : string).

Inductive exn : Type :=
  | KeyError
  | OSError
  | ZeroDivisionError
  | ImageError.

(** What [print] shows, one constructor per report of the source. *)
Inductive message : Type :=
  | MsgBasic (cursor_name : string) (sizes : list Z)
  | MsgScaleWarning (image : string) (e : exn)
  | MsgOptimized (cursor_name : string) (sizes : list Z)
  | MsgNoCursorsDir
  | MsgGenerating
  | MsgMayTakeAWhile
  | MsgCompiled (i total : nat) (cursor_name : string) (bytes : nat)
  | MsgCompileFailed (i total : nat) (cursor_name : string) (stderr : string)
  | MsgXcursorgenNotFound
  | MsgTimeout (i total : nat) (cursor_name : string)
  | MsgError (i total : nat) (cursor_name : string) (e : exn)
  | MsgComplete (successful failed : Z)
  | MsgTotalSize (bytes : nat).

(** The part of the process and its environment the generator acts on:
    the cursors directory, what was printed (oldest first), the working
    directory as a list of path components, and the argument vectors of
    the external processes started so far. *)
Record world : Type := World {
  fs : gmap string node;
  has_dir : bool;
  stdout : list message;
  cwd : list string;
  spawned : list (list string)
}.

Definition set_fs (d : gmap string node) (w : world) : world :=
  {| fs := d; has_dir := has_dir w; stdout := stdout w; cwd := cwd w;
     spawned := spawned w |}.

(** ** Statements: state and exceptions *)

Inductive result (A : Type) : Type :=
  | Ok (a : A)
  | Raise (e : exn).
Arguments Ok {A} a.
Arguments Raise {A} e.

(** A statement over a state [S]: it returns or raises, and the state it
    leaves is kept in both cases. *)
Definition M (S A : Type) : Type := S -> result A * S.

Definition ret {S A : Type} (a : A) : M S A := fun s => (Ok a, s).

Definition raise {S A : Type} (e : exn) : M S A := fun s => (Raise e, s).

Definition bind {S A B : Type} (m : M S A) (k : A -> M S B) : M S B :=
  fun s => match m s with
           | (Ok a, s') => k a s'
           | (Raise e, s') => (Raise e, s')
           end.

(** [try: m except e: h e]. *)
Definition try_except {S A : Type} (m : M S A) (h : exn -> M S A) : M S A :=
  fun s => match m s with
           | (Ok a, s') => (Ok a, s')
           | (Raise e, s') => h e s'
           end.

Definition get {S : Type} : M S S := fun s => (Ok s, s).

Definition modify {S : Type} (f : S -> S) : M S unit := fun s => (Ok tt, f s).

Notation "x <- m ;; k" := (bind m (fun x => k))
  (at level 20, m at level 99, k at level 200, only parsing).
Notation "m ;; k" := (bind m (fun _ => k))
  (at level 100, k at level 200, right associativity, only parsing).

(** [for x in l: f x]. *)
Fixpoint for_each {S A : Type} (f : A -> M S unit) (l : list A) : M S unit :=
  match l with
  | [] => ret tt
  | x :: l' => f x ;; for_each f l'
  end.

(** A statement on the process state, run where there are locals [L]. *)
Definition lift {L A : Type} (m : M world A) : M (L * world) A :=
  fun s => let '(r, w') := m (snd s) in (r, (fst s, w')).

Definition print (m : message) : M world unit :=
  modify (fun w => {| fs := fs w; has_dir := has_dir w; stdout := stdout w ++ [m];
                      cwd := cwd w; spawned := spawned w |}).

(** ** File system *)

(** Where following symbolic links from a name ends. *)
Inductive walk_result : Type :=
  | Reached (name : string) (content : string)
  | Missing (name : string)
  | TooManyLinks.

Fixpoint walk (fuel : nat) (d : gmap string node) (name : string) : walk_result :=
  match d !! name with
  | None => Missing name
  | Some (File c) => Reached name c
  | Some (Link t) =>
      match fuel with
      | O => TooManyLinks
      | S fuel' => walk fuel' d t
      end
  end.

(** The number of links the system follows before it gives up. *)
Definition link_limit : nat := 40.

(** [Path.exists()]: follows links; a dangling link does not exist. *)
Definition path_exists (d : gmap string node) (name : string) : bool :=
  match walk link_limit d name with
  | Reached _ _ => true
  | _ => false
  end.

(** [Path.is_symlink()]. *)
Definition is_symlink (d : gmap string node) (name : string) : bool :=
  match d !! name with
  | Some (Link _) => true
  | _ => false
  end.

(** [open(name, 'w')] and a write of [content]: through links, creating
    or replacing the regular file at their end. *)
Definition write_file (name content : string) : M world unit :=
  fun w => match walk link_limit (fs w) name with
           | Reached t _ | Missing t => (Ok tt, set_fs (<[t := File content]> (fs w)) w)
           | TooManyLinks => (Raise OSError, w)
           end.

(** ** External capabilities *)

(** A [pathlib.Path] of a source image: the path as given, and its final
    component ([.name]). *)
Record src_image : Type := SrcImage {
  image_path : string;
  image_name : string
}.

(** The image library. [image_open] is [Image.open] followed by the
    conversion to RGBA, and [resize_png] is [resize] to a square of the
    given side followed by the PNG encoding of [save]; each is [None]
    when the library raises. *)
Record imaging : Type := Imaging {
  picture : Type;
  image_open : src_image -> option picture;
  picture_width : picture -> Z;
  picture_height : picture -> Z;
  resize_png : picture -> Z -> option string
}.

(** What [subprocess.run] does with an argument vector in the cursors
    directory: the process ran to its end (return code, standard error
    and the directory as it leaves it), the program was not found, the
    time limit passed, or another exception. *)
Inductive run_outcome : Type :=
  | Completed (returncode : Z) (stderr : string) (after : gmap string node)
  | ProgramNotFound
  | TimeoutExpired (after : gmap string node)
  | RunError (e : exn) (after : gmap string node).

(** The platform: whether [symlink_to] may create the named link, and
    [subprocess.run]. *)
Record platform : Type := Platform {
  can_symlink : string -> bool;
  subprocess_run : gmap string node -> list string -> run_outcome
}.

(** ** Image Scaler *)

(** The body of the [for] loop of lines 59-71, with the dict
    [scaled_images] as a local. *)
Fixpoint scale_sizes (I : imaging) (img : picture I) (cursor_name : string)
    (sizes : list Z) : M (gmap Z string * world) unit :=
  match sizes with
  | [] => ret tt
  | size :: rest =>
      let original_size := Z.max (picture_width I img) (picture_height I img) in
      (if (original_size =? 0)%Z then raise ZeroDivisionError else ret tt) ;;
      match resize_png I img size with
      | None => raise ImageError
      | Some png =>
          lift (write_file (scaled_filename cursor_name size) png) ;;
          modify (fun s => (<[size := scaled_filename cursor_name size]> (fst s), snd s)) ;;
          scale_sizes I img cursor_name rest
      end
  end.

(** The [except] branch, lines 76-77. *)
Fixpoint use_original (original_name : string) (sizes : list Z)
    (scaled_images : gmap Z string) : gmap Z string :=
  match sizes with
  | [] => scaled_images
  | size :: rest => use_original original_name rest (<[size := original_name]> scaled_images)
  end.

(** [create_scaled_images(original_image, cursor_name, output_dir, sizes)],
    lines 45-79; [output_dir] is the cursors directory. *)
Definition create_scaled_images (I : imaging) (original_image : src_image)
    (cursor_name : string) (sizes : list Z) : M world (gmap Z string) :=
  fun w =>
    let body : M (gmap Z string * world) unit :=
      match image_open I original_image with
      | None => raise ImageError
      | Some img => scale_sizes I img cursor_name sizes
      end in
    match body (∅, w) with
    | (Ok _, (scaled_images, w')) => (Ok scaled_images, w')
    | (Raise e, (scaled_images, w')) =>
        (print (MsgScaleWarning (image_path original_image) e) ;;
         ret (use_original (image_name original_image) sizes scaled_images)) w'
    end.

(** ** Cursor Config Writer *)

(** The loop of lines 92-98 on [config_content]. *)
Definition optimized_content (cursor_name original_name : string)
    (scaled_images : gmap Z string) (sizes : list Z) : string :=
  fold_left
    (fun config_content size =>
       let image_file := default original_name (scaled_images !! size) in
       let '(hotspot_x, hotspot_y) := calculate_hotspot cursor_name size in
       config_content +:+ config_line size hotspot_x hotspot_y image_file)
    sizes
    ("# " +:+ cursor_name +:+ " cursor - Optimized multi-size" +:+ nl).

(** [create_optimized_multisize_config(cursors_dir, cursor_name,
    original_image, sizes)], lines 81-103. *)
Definition create_optimized_multisize_config (I : imaging) (cursor_name : string)
    (original_image : src_image) (sizes : list Z) : M world unit :=
  scaled_images <- create_scaled_images I original_image cursor_name sizes ;;
  write_file (cursor_file cursor_name)
    (optimized_content cursor_name (image_name original_image) scaled_images sizes) ;;
  print (MsgOptimized cursor_name sizes).

(** The loop of lines 16-38. *)
Definition basic_content (cursor_name image_file : string) (sizes : list Z) : string :=
  fold_left
    (fun config_content size =>
       let '(hotspot_x, hotspot_y) := basic_hotspot cursor_name size in
       config_content +:+ config_line size hotspot_x hotspot_y image_file)
    sizes
    ("# " +:+ cursor_name +:+ " cursor - Multi-size version" +:+ nl).

(** [create_multisize_cursor_config(cursors_dir, cursor_name, image_file,
    sizes)], lines 8-43. *)
Definition create_multisize_cursor_config (cursor_name image_file : string)
    (sizes : list Z) : M world unit :=
  write_file (cursor_file cursor_name) (basic_content cursor_name image_file sizes) ;;
  print (MsgBasic cursor_name sizes).

(** ** Essential Cursor Synthesizer *)

(** [image_to_cursor_map], lines 181-198. *)
Definition image_to_cursor_map : list (string * string) :=
  [("pointer.png", "left_ptr"); ("alternate.png", "right_ptr");
   ("help.png", "question_arrow"); ("working.png", "progress");
   ("busy.png", "wait"); ("link.png", "hand2"); ("handwriting.png", "pencil");
   ("person.png", "hand1"); ("cross.png", "crosshair"); ("loc.png", "cross");
   ("horz.png", "sb_h_double_arrow"); ("vert.png", "sb_v_double_arrow");
   ("dgn1.png", "top_left_corner"); ("dgn2.png", "top_right_corner");
   ("move.png", "fleur"); ("unavailable.png", "forbidden")].

(** [essential_cursors], lines 233-268. *)
Definition essential_cursors : list (string * string) :=
  [("default", "left_ptr"); ("arrow", "left_ptr"); ("text", "xterm");
   ("ibeam", "xterm"); ("watch", "wait"); ("half-busy", "progress");
   ("col-resize", "sb_h_double_arrow"); ("row-resize", "sb_v_double_arrow");
   ("size_ver", "sb_v_double_arrow"); ("size_hor", "sb_h_double_arrow");
   ("size_bdiag", "top_right_corner"); ("size_fdiag", "top_left_corner");
   ("size_all", "fleur"); ("n_resize", "top_side"); ("s_resize", "bottom_side");
   ("e_resize", "right_side"); ("w_resize", "left_side");
   ("ne-resize", "top_right_corner"); ("nw-resize", "top_left_corner");
   ("se-resize", "bottom_right_corner"); ("sw-resize", "bottom_left_corner");
   ("hand", "hand2"); ("pointing_hand", "hand2"); ("openhand", "hand1");
   ("closedhand", "hand1"); ("grab", "hand1"); ("grabbing", "hand1");
   ("dnd-move", "fleur"); ("dnd-none", "forbidden"); ("dnd_no_drop", "forbidden");
   ("no_drop", "forbidden"); ("not_allowed", "forbidden");
   ("whats_this", "question_arrow"); ("crossed_circle", "forbidden")].

(** "Find appropriate image", lines 275-279: [Ok None] is
    [image_file = None]. *)
Definition find_image (cursor_map : list (string * string))
    (available_images : list (string * src_image)) (fallback : string)
    : result (option src_image) :=
  if Py.has_key fallback cursor_map && Py.has_key fallback available_images then
    match Py.getitem fallback cursor_map with
    | None => Raise KeyError
    | Some key =>
        match Py.getitem key available_images with
        | None => Raise KeyError
        | Some image_file => Ok (Some image_file)
        end
    end
  else
    match available_images with
    | (_, image_file) :: _ => Ok (Some image_file)
    | [] => Ok None
    end.

(** The body of the loop of lines 270-282. *)
Definition essential_cursor (I : imaging) (cursor_map : list (string * string))
    (available_images : list (string * src_image)) (sizes : list Z)
    (entry : string * string) : M world unit :=
  let '(cursor_name, fallback) := entry in
  if negb (Py.has_key cursor_name cursor_map) then
    w <- get ;;
    if negb (path_exists (fs w) (cursor_file cursor_name)) then
      image_file <- (fun w => (find_image cursor_map available_images fallback, w)) ;;
      match image_file with
      | Some image_file =>
          create_optimized_multisize_config I cursor_name image_file sizes
      | None => ret tt
      end
    else ret tt
  else ret tt.

(** [create_fullsize_essential_cursors(cursors_dir, cursor_map,
    available_images, sizes)], lines 230-282. *)
Definition create_fullsize_essential_cursors (I : imaging)
    (cursor_map : list (string * string))
    (available_images : list (string * src_image)) (sizes : list Z) : M world unit :=
  for_each (essential_cursor I cursor_map available_images sizes) essential_cursors.

(** ** Alias Linker *)

(** [alias_groups], lines 287-302. *)
Definition alias_groups : list (list string) :=
  [["left_ptr"; "default"; "arrow"; "top_left_arrow"];
   ["xterm"; "text"; "ibeam"];
   ["hand2"; "hand"; "pointer"; "pointing_hand"];
   ["hand1"; "openhand"; "grab"];
   ["wait"; "watch"];
   ["progress"; "half-busy"];
   ["sb_h_double_arrow"; "size_hor"; "h-double-arrow"; "ew-resize"; "col-resize"];
   ["sb_v_double_arrow"; "size_ver"; "v_double_arrow"; "ns-resize"; "row-resize"];
   ["top_left_corner"; "size_fdiag"; "nw-resize"; "nwse-resize"];
   ["top_right_corner"; "size_bdiag"; "ne-resize"; "nesw-resize"];
   ["bottom_left_corner"; "sw-resize"];
   ["bottom_right_corner"; "se-resize"];
   ["fleur"; "size_all"; "move"; "all-scroll"];
   ["forbidden"; "not_allowed"; "no_drop"; "dnd-none"; "crossed_circle"]].

(** The search of lines 305-310: the first name of the group whose
    config file exists. *)
Fixpoint find_source (d : gmap string node) (group : list string) : option string :=
  match group with
  | [] => None
  | cursor :: rest =>
      if path_exists d (cursor_file cursor) then Some cursor
      else find_source d rest
  end.

(** [Path.symlink_to]: raises when the platform refuses, or when the
    name is already taken (also by a dangling link). *)
Definition symlink_to (P : platform) (link target : string) : M world unit :=
  fun w => match fs w !! link with
           | None =>
               if can_symlink P link
               then (Ok tt, set_fs (<[link := Link target]> (fs w)) w)
               else (Raise OSError, w)
           | Some _ => (Raise OSError, w)
           end.

(** [shutil.copy2]: reads the source through links and writes the
    destination through links. *)
Definition copy2 (src dst : string) : M world unit :=
  fun w => match walk link_limit (fs w) src with
           | Reached _ content => write_file dst content w
           | _ => (Raise OSError, w)
           end.

(** The body of the loop of lines 313-320. *)
Definition link_alias (P : platform) (source_cursor alias : string) : M world unit :=
  if negb (String.eqb alias source_cursor) then
    w <- get ;;
    if negb (path_exists (fs w) (cursor_file alias)) then
      try_except
        (symlink_to P (cursor_file alias) (cursor_file source_cursor))
        (fun e => match e with
                  | OSError => copy2 (cursor_file source_cursor) (cursor_file alias)
                  | _ => raise e
                  end)
    else ret tt
  else ret tt.

(** The body of the loop of lines 304-320; an empty name is false in
    [if source_cursor]. *)
Definition link_group (P : platform) (group : list string) : M world unit :=
  w <- get ;;
  match find_source (fs w) group with
  | Some source_cursor =>
      if String.eqb source_cursor "" then ret tt
      else for_each (link_alias P source_cursor) group
  | None => ret tt
  end.

(** [create_fullsize_aliases(cursors_dir)], lines 284-320. *)
Definition create_fullsize_aliases (P : platform) : M world unit :=
  for_each (link_group P) alias_groups.

(** ** Cursor Compiler Driver *)

(** A directory path: absolute or relative to the working directory. *)
Record dir_path : Type := DirPath {
  absolute : bool;
  parts : list string
}.

Definition set_cwd (c : list string) (w : world) : world :=
  {| fs := fs w; has_dir := has_dir w; stdout := stdout w; cwd := c;
     spawned := spawned w |}.

(** [os.chdir]. *)
Definition chdir (p : dir_path) : M world unit :=
  modify (fun w => set_cwd (if absolute p then parts p else cwd w ++ parts p) w).

Definition spawn (args : list string) : M world unit :=
  modify (fun w => {| fs := fs w; has_dir := has_dir w; stdout := stdout w;
                      cwd := cwd w; spawned := spawned w ++ [args] |}).

Fixpoint insert_sorted (x : string) (l : list string) : list string :=
  match l with
  | [] => [x]
  | y :: l' => if String.leb x y then x :: l else y :: insert_sorted x l'
  end.

(** [sorted] on names. *)
Definition sorted (l : list string) : list string := foldr insert_sorted [] l.

(** [glob("*.cursor")]: the names in the directory itself with that ending. *)
Definition is_config_name (name : string) : bool :=
  Py.endswith name ".cursor" && negb (Py.contains "/" name).

(** [config_files], line 366. *)
Definition config_files (d : gmap string node) : list string :=
  List.filter (fun name => negb (is_symlink d name))
    (sorted (List.filter is_config_name (map fst (map_to_list d)))).

(** [Path.stem] of a name that ends in [.cursor]: the name [.cursor]
    itself has no suffix. *)
Definition stem (name : string) : string :=
  if String.eqb name ".cursor" then name
  else String.substring 0 (String.length name - 7) name.

(** [Path.stat().st_size], through links. *)
Definition st_size (d : gmap string node) (name : string) : nat :=
  match walk link_limit d name with
  | Reached _ content => String.length content
  | _ => O
  end.

(** The loop of lines 368-410; it returns [successful] and [failed]. *)
Fixpoint compile_files (P : platform) (cursors_dir : dir_path) (total i : nat)
    (files : list string) (successful failed : Z) : M world (Z * Z) :=
  match files with
  | [] => ret (successful, failed)
  | config_file :: rest =>
      let cursor_name := stem config_file in
      original_cwd <- (fun w => (Ok (cwd w), w)) ;;
      chdir cursors_dir ;;
      w <- get ;;
      spawn ["xcursorgen"; config_file; cursor_name] ;;
      match subprocess_run P (fs w) ["xcursorgen"; config_file; cursor_name] with
      | Completed returncode stderr after =>
          modify (set_fs after) ;;
          chdir (DirPath true original_cwd) ;;
          if (returncode =? 0)%Z && path_exists after cursor_name then
            print (MsgCompiled i total cursor_name (st_size after cursor_name)) ;;
            compile_files P cursors_dir total (S i) rest (successful + 1) failed
          else
            print (MsgCompileFailed i total cursor_name stderr) ;;
            compile_files P cursors_dir total (S i) rest successful (failed + 1)
      | ProgramNotFound =>
          print MsgXcursorgenNotFound ;;
          ret (successful, failed)
      | TimeoutExpired after =>
          modify (set_fs after) ;;
          print (MsgTimeout i total cursor_name) ;;
          chdir (DirPath true original_cwd) ;;
          compile_files P cursors_dir total (S i) rest successful (failed + 1)
      | RunError e after =>
          modify (set_fs after) ;;
          print (MsgError i total cursor_name e) ;;
          chdir (DirPath true original_cwd) ;;
          compile_files P cursors_dir total (S i) rest successful (failed + 1)
      end
  end.

(** The sum of line 416: the sizes of the files in the directory whose
    suffix is not [.cursor]. *)
Definition total_size (d : gmap string node) : nat :=
  foldr (fun name acc =>
           if negb (Py.contains "/" name) && path_exists d name
              && negb (Py.endswith name ".cursor" && negb (String.eqb name ".cursor"))
           then (st_size d name + acc)%nat else acc)
        O (map fst (map_to_list d)).

(** [generate_fullsize_cursors(theme_dir)], lines 351-418. *)
Definition generate_fullsize_cursors (P : platform) (theme_dir : dir_path) : M world unit :=
  let cursors_dir := DirPath (absolute theme_dir) (parts theme_dir ++ ["cursors"]) in
  w <- get ;;
  if negb (has_dir w) then print MsgNoCursorsDir
  else
    print MsgGenerating ;;
    print MsgMayTakeAWhile ;;
    let files := config_files (fs w) in
    counts <- compile_files P cursors_dir (length files) 1 files 0 0 ;;
    print (MsgComplete (fst counts) (snd counts)) ;;
    if (fst counts >? 0)%Z then
      w' <- get ;;
      print (MsgTotalSize (total_size (fs w')))
    else ret tt.


(** ** Predicates of the statements *)

(** The byte [a] is none of the bytes of [p]. *)
Fixpoint no_byte (a : ascii) (p : string) : bool :=
  match p with
  | EmptyString => true
  | String b p' => negb (Ascii.eqb b a) && no_byte a p'
  end.

(** A byte that starts no white-space character. *)
Definition starts_no_space (c : ascii) : bool :=
  forallb (fun p => match p with
                    | String b _ => negb (Ascii.eqb b c)
                    | EmptyString => true
                    end) Py.space_chars.

(** No white-space character of [str.split()] starts anywhere in the
    string. *)
Fixpoint no_space (s : string) : bool :=
  match s with
  | EmptyString => true
  | String _ s' => Nat.eqb (Py.space_len s) 0 && no_space s'
  end.

(** No character of the string is a line feed or a carriage return. *)
Fixpoint no_line_break (s : string) : bool :=
  match s with
  | EmptyString => true
  | String c s' =>
      negb (Ascii.eqb c "010") && negb (Ascii.eqb c "013") && no_line_break s'
  end.

(** The line boundaries of [str.splitlines()], each as its bytes: LF,
    CR, U+000B, U+000C, U+001C to U+001E, U+0085, U+2028 and U+2029. *)
Definition line_boundaries : list string :=
  map string_of_list_ascii
    [ ["010"]; ["013"]; ["011"]; ["012"]; ["028"]; ["029"]; ["030"];
      ["194"; "133"]; ["226"; "128"; "168"]; ["226"; "128"; "169"] ]%char.

(** No line boundary starts anywhere in the string: read by
    [splitlines], by iteration over the text file or up to each line
    feed, the string stays within one line. *)
Fixpoint no_line_boundary (s : string) : bool :=
  match s with
  | EmptyString => true
  | String _ s' =>
      negb (existsb (fun p => Py.starts_with p s) line_boundaries)
      && no_line_boundary s'
  end.

(** What [str.split()] gives back as one token: a [str] that is not
    empty and holds no white space. *)
Definition single_token (s : string) : Prop :=
  s <> "" /\ Py.well_encoded s = true /\ no_space s = true.

(** The content of a regular file, read through links. *)
Definition read_file (d : gmap string node) (name : string) : option string :=
  match walk link_limit d name with
  | Reached _ content => Some content
  | _ => None
  end.

(** A line that splits on whitespace into exactly five tokens, the
    first the size and the last the duration 100. *)
Definition five_tokens (size : Z) (line : string) : Prop :=
  exists x y image_file : string,
    Py.split line = [Py.str size; x; y; image_file; "100"].

(** A config text: a comment header, then one non-comment line per
    requested size, in the order of the size list. *)
Definition well_formed_config (sizes : list Z) (content : string) : Prop :=
  exists (header : string) (data : list string),
    Py.lines content = header :: data
    /\ Py.startswith header "#" = true
    /\ Forall (fun line => Py.startswith line "#" = false) data
    /\ Forall2 five_tokens sizes data.

(** The Cursor Config Writer returns and leaves a well-formed config. *)
Definition writes_well_formed_config (I : imaging) (cursor_name : string)
    (original_image : src_image) (sizes : list Z) (w : world) : Prop :=
  exists (w' : world) (content : string),
    create_optimized_multisize_config I cursor_name original_image sizes w = (Ok tt, w')
    /\ read_file (fs w') (cursor_file cursor_name) = Some content
    /\ well_formed_config sizes content.

(** [scaled_images.get(size, original_image.name)], line 93, for the
    mapping the Image Scaler returns: the image file the config names
    for a size. *)
Definition config_image (I : imaging) (original_image : src_image)
    (cursor_name : string) (sizes : list Z) (w : world) (size : Z) : string :=
  match create_scaled_images I original_image cursor_name sizes w with
  | (Ok scaled_images, _) => default (image_name original_image) (scaled_images !! size)
  | (Raise _, _) => image_name original_image
  end.

(** The directory [d'] has the links of [d] and no others, and every
    regular file of [d] is still a regular file. *)
Definition extends (d d' : gmap string node) : Prop :=
  (forall name target, d !! name = Some (Link target) <-> d' !! name = Some (Link target))
  /\ (forall name content, d !! name = Some (File content) ->
        exists content', d' !! name = Some (File content')).

(** An image library on which every [Image.open] raises. *)
Definition broken_imaging : imaging :=
  {| picture := unit;
     image_open := fun _ => None;
     picture_width := fun _ => 0;
     picture_height := fun _ => 0;
     resize_png := fun _ _ => None |}.

(** An image library that opens every image as a 32 by 32 picture and
    encodes every resize as the text [png]. *)
Definition sample_imaging : imaging :=
  {| picture := unit;
     image_open := fun _ => Some tt;
     picture_width := fun _ => 32;
     picture_height := fun _ => 32;
     resize_png := fun _ _ => Some "png" |}.

(** The file name [my pointer.png] with the no-break space U+00A0
    between its two words. *)
Definition no_break_space_name : string :=
  "my" +:+ String "194" (String "160" "pointer.png").

(** A fresh cursors directory. *)
Definition empty_world : world :=
  {| fs := ∅; has_dir := true; stdout := []; cwd := ["home"]; spawned := [] |}.


(** The config text for the given per-size image files. *)
Definition content_with (image_of : Z -> string) (cursor_name : string)
    (sizes : list Z) : string :=
  ("# " +:+ cursor_name +:+ " cursor - Optimized multi-size" +:+ nl)
  +:+ foldr (fun size acc =>
               (let '(x, y) := calculate_hotspot cursor_name size in
                config_line size x y (image_of size)) +:+ acc)
            "" sizes.

(** The image name the primary map sends to a cursor name. *)
Fixpoint source_of (cursor_map : list (string * string)) (cursor : string)
    : option string :=
  match cursor_map with
  | [] => None
  | (image, cursor') :: rest =>
      if String.eqb cursor cursor' then Some image else source_of rest cursor
  end.

(** The first image of the listing, if any. *)
Definition first_available (available_images : list (string * src_image))
    : option src_image :=
  match available_images with
  | (_, image_file) :: _ => Some image_file
  | [] => None
  end.

(** The resolution in the words of the specification: the fallback
    cursor's mapped source image when it is available, otherwise the
    first available image, otherwise none. *)
Definition preferred_image (cursor_map : list (string * string))
    (available_images : list (string * src_image)) (fallback : string)
    : option src_image :=
  match source_of cursor_map fallback with
  | Some image =>
      match Py.getitem image available_images with
      | Some image_file => Some image_file
      | None => first_available available_images
      end
  | None => first_available available_images
  end.

(** A listing of an image folder with [link.png] before [pointer.png]. *)
Definition link_then_pointer : list (string * src_image) :=
  [("link.png", SrcImage "link.png" "link.png");
   ("pointer.png", SrcImage "pointer.png" "pointer.png")].


(** The name resolves to a regular file through at most one link. *)
Definition within_one_hop (d : gmap string node) (name : string) : Prop :=
  exists target content, walk 1 d name = Reached target content.

(** No config name of the group is a symbolic link. *)
Definition group_regular (d : gmap string node) (group : list string) : Prop :=
  forall name target, In name group -> d !! cursor_file name <> Some (Link target).

(** Every symbolic link among the config names of the group points
    straight at a regular file: none is dangling, none leads to another
    link. *)
Definition group_direct (d : gmap string node) (group : list string) : Prop :=
  forall name target, In name group ->
    d !! cursor_file name = Some (Link target) ->
    exists content, d !! target = Some (File content).

(** The canonical config is a regular file, or the platform can make
    no free config name of the group a symbolic link (so no name is
    free, or copies are made). *)
Definition canonical_ready (P : platform) (d : gmap string node)
    (group : list string) (source_cursor : string) : Prop :=
  (exists content, d !! cursor_file source_cursor = Some (File content))
  \/ (forall name, In name group -> d !! cursor_file name = None ->
        can_symlink P (cursor_file name) = false).

(** What the linker leaves under an alias name: a link to the canonical
    config, or a copy of it where the link cannot be made. *)
Definition alias_node (P : platform) (source_cursor content alias : string) : node :=
  if can_symlink P (cursor_file alias) then Link (cursor_file source_cursor)
  else File content.

(** The last part of the Alias Linker's contract as the specification
    words it: after a group with a canonical config is linked, every
    name of the group is within one link of a regular config file. *)
Definition aliases_within_one_hop (P : platform) (group : list string) (w : world) : Prop :=
  find_source (fs w) group <> None ->
  forall name, In name group ->
    within_one_hop (fs (snd (link_group P group w))) (cursor_file name).

(** A platform with symbolic links and without [xcursorgen]. *)
Definition linking_platform : platform :=
  {| can_symlink := fun _ => true;
     subprocess_run := fun _ _ => ProgramNotFound |}.

(** A platform without symbolic links. *)
Definition copying_platform : platform :=
  {| can_symlink := fun _ => false;
     subprocess_run := fun _ _ => ProgramNotFound |}.

(** A cursors directory where [left_ptr.cursor] is a link to another
    config file. *)
Definition linked_left_ptr : world :=
  {| fs := {[ "left_ptr.cursor" := Link "real.cursor";
              "real.cursor" := File "# left_ptr" ]};
     has_dir := true; stdout := []; cwd := ["home"]; spawned := [] |}.

(** A cursors directory as the linker itself leaves it: a config file
    and an alias that is a link to it. *)
Definition left_ptr_with_alias : world :=
  {| fs := {[ "left_ptr.cursor" := File "# left_ptr";
              "default.cursor" := Link "left_ptr.cursor" ]};
     has_dir := true; stdout := []; cwd := ["home"]; spawned := [] |}.

(** A cursors directory where [arrow.cursor] is a dangling link to the
    free name [default.cursor]. *)
Definition dangling_arrow : world :=
  {| fs := {[ "left_ptr.cursor" := File "# left_ptr";
              "arrow.cursor" := Link "default.cursor" ]};
     has_dir := true; stdout := []; cwd := ["home"]; spawned := [] |}.

(** A cursors directory where [arrow.cursor] is a dangling link to a
    name outside the group. *)
Definition dangling_spare : world :=
  {| fs := {[ "left_ptr.cursor" := File "# left_ptr";
              "arrow.cursor" := Link "spare.cursor" ]};
     has_dir := true; stdout := []; cwd := ["home"]; spawned := [] |}.

(** A cursors directory with the one config file [left_ptr.cursor]. *)
Definition only_left_ptr : world :=
  {| fs := {[ "left_ptr.cursor" := File "# left_ptr" ]};
     has_dir := true; stdout := []; cwd := ["home"]; spawned := [] |}.

(** The working directory after [os.chdir(p)]. *)
Definition entered (p : dir_path) (from : list string) : list string :=
  if absolute p then parts p else (from ++ parts p)%list.

(** The cursors directory of a theme directory, [Path(theme_dir) / "cursors"]. *)
Definition cursors_dir_of (theme_dir : dir_path) : dir_path :=
  DirPath (absolute theme_dir) (parts theme_dir ++ ["cursors"]).

(** A directory with two config files, a scaled image and an alias. *)
Definition two_configs : world :=
  {| fs := {[ "left_ptr.cursor" := File "# left_ptr";
              "hand2.cursor" := File "# hand2";
              "left_ptr_16x16.png" := File "png";
              "default.cursor" := Link "left_ptr.cursor" ]};
     has_dir := true; stdout := []; cwd := ["home"]; spawned := [] |}.

(** A platform on which [xcursorgen] runs out of time on every file. *)
Definition slow_platform : platform :=
  {| can_symlink := fun _ => true;
     subprocess_run := fun d _ => TimeoutExpired d |}.

(** The directory holds no symbolic link. *)
Definition regular_only (d : gmap string node) : Prop :=
  forall name target, d !! name <> Some (Link target).

(** No name occurs twice in the list. *)
Fixpoint distinct (l : list string) : bool :=
  match l with
  | [] => true
  | x :: l' => negb (Py.mem x l') && distinct l'
  end.





(** ** Theme Index Writer *)

(** [sep.join(l)]. *)
Fixpoint join_with (sep : string) (l : list string) : string :=
  match l with
  | [] => ""
  | x :: l' =>
      match l' with
      | [] => x
      | _ => x +:+ sep +:+ join_with sep l'
      end
  end.

(** The text of [index.theme], lines 325-346. *)
Definition theme_index_content (theme_name : string) (sizes : list Z) : string :=
  "[Icon Theme]" +:+ nl
  +:+ "Name=" +:+ theme_name +:+ nl
  +:+ "Name[en]=" +:+ theme_name +:+ " - Full Size" +:+ nl
  +:+ "Comment=High-quality X11 cursor theme with multiple sizes" +:+ nl
  +:+ "Comment[en]=High-quality X11 cursor theme with multiple sizes for all display types" +:+ nl
  +:+ "Inherits=core" +:+ nl
  +:+ "Example=left_ptr" +:+ nl
  +:+ nl
  +:+ "[Icon Theme Directory]" +:+ nl
  +:+ "Size=24" +:+ nl
  +:+ "Type=Fixed" +:+ nl
  +:+ "Sizes=" +:+ join_with "," (map Py.str sizes) +:+ nl
  +:+ "MinSize=16" +:+ nl
  +:+ "MaxSize=128" +:+ nl
  +:+ "Threshold=2" +:+ nl
  +:+ nl
  +:+ "[Desktop Entry]" +:+ nl
  +:+ "Type=X-Cursor-Theme" +:+ nl
  +:+ "Name=" +:+ theme_name +:+ nl
  +:+ "Comment=Full-size cursor theme" +:+ nl
  +:+ "X-KDE-FallbackTheme=core" +:+ nl.

(** The theme index, seen from the cursors directory: [index.theme] of
    the theme directory, one level up. *)
Definition index_file : string := "../index.theme".

(** [create_fullsize_theme_index(theme_dir, theme_name, sizes)], lines
    322-349. *)
Definition create_fullsize_theme_index (theme_name : string) (sizes : list Z)
    : M world unit :=
  write_file index_file (theme_index_content theme_name sizes).

(** ** Theme creation *)

(** [d[k] = v] on a dict kept in insertion order: a key already there
    keeps its place. *)
Fixpoint dict_set {V : Type} (k : string) (v : V) (d : list (string * V))
    : list (string * V) :=
  match d with
  | [] => [(k, v)]
  | (k', v') :: d' =>
      if String.eqb k k' then (k, v) :: d' else (k', v') :: dict_set k v d'
  end.

(** [{img.name: img for img in image_files}], line 210. *)
Definition images_by_name (image_files : list src_image) : list (string * src_image) :=
  fold_left (fun d img => dict_set (image_name img) img d) image_files [].

(** What [create_fullsize_cursor_theme] itself prints. *)
Inductive theme_report : Type :=
  | RepCreating (theme_name : string)
  | RepSupportedSizes (sizes : list Z)
  | RepCreated (theme_name : string).

Definition report (r : theme_report) : M (list theme_report * world) unit :=
  modify (fun s => ((fst s ++ [r])%list, snd s)).

(** [cursors_dir.mkdir(parents=True, exist_ok=True)]. *)
Definition mkdir_cursors : M world unit :=
  modify (fun w => {| fs := fs w; has_dir := true; stdout := stdout w;
                      cwd := cwd w; spawned := spawned w |}).

(** The body of the loop of lines 213-216. *)
Definition primary_cursor (I : imaging) (available_images : list (string * src_image))
    (sizes : list Z) (entry : string * string) : M world unit :=
  let '(image_name, cursor_name) := entry in
  if Py.has_key image_name available_images then
    match Py.getitem image_name available_images with
    | Some original_image =>
        create_optimized_multisize_config I cursor_name original_image sizes
    | None => raise KeyError
    end
  else ret tt.

(** [create_fullsize_cursor_theme(image_folder, theme_name)], lines
    170-228, with the listing [glob("*.png")] of the image folder as an
    argument. Its own reports are the local list of the state; it returns
    the theme directory, here its name. *)
Definition create_fullsize_cursor_theme (I : imaging) (P : platform)
    (image_files : list src_image) (theme_name : string)
    : M (list theme_report * world) string :=
  lift mkdir_cursors ;;
  report (RepCreating theme_name) ;;
  report (RepSupportedSizes standard_sizes) ;;
  let available_images := images_by_name image_files in
  lift (for_each (primary_cursor I available_images standard_sizes) image_to_cursor_map) ;;
  lift (create_fullsize_essential_cursors I image_to_cursor_map available_images
          standard_sizes) ;;
  lift (create_fullsize_aliases P) ;;
  lift (create_fullsize_theme_index theme_name standard_sizes) ;;
  report (RepCreated theme_name) ;;
  ret theme_name.

(** ** Further predicates of the statements *)

(** No character of the string is the letter [x]. *)
Fixpoint no_x (s : string) : bool :=
  match s with
  | EmptyString => true
  | String c s' => negb (Ascii.eqb c "x") && no_x s'
  end.

(** The last character of a string. *)
Fixpoint last_ascii (s : string) : option ascii :=
  match s with
  | EmptyString => None
  | String c s' =>
      match s' with
      | EmptyString => Some c
      | _ => last_ascii s'
      end
  end.

(** A group the linker passes over: no name of it has a config file, or
    every name of it has one. *)
Definition group_settled (d : gmap string node) (group : list string) : Prop :=
  find_source d group = None
  \/ forall name, In name group -> path_exists d (cursor_file name) = true.

(** The argument vector of line 379 for a config file. *)
Definition xcursorgen_args (config_file : string) : list string :=
  ["xcursorgen"; config_file; stem config_file].

(** * Properties *)

(** ** Hotspot Calculator *)

Lemma mem_In (x : string) (l : list string) : Py.mem x l = true <-> In x l.
Proof.
  induction l as [|y l IH]; simpl.
  - split; [discriminate | tauto].
  - destruct (String.eqb_spec x y) as [->|Hne].
    + split; auto.
    + rewrite IH. split; [auto | intros [Heq|Hin]; [congruence | exact Hin]].
Qed.

Lemma mem_not_In (x : string) (l : list string) : ~ In x l -> Py.mem x l = false.
Proof.
  intros Hn. destruct (Py.mem x l) eqn:E; [|reflexivity].
  apply mem_In in E. contradiction.
Qed.

Ltac each_name H :=
  simpl in H;
  repeat (destruct H as [<-|H]; [reflexivity|]);
  contradiction.

Lemma hotspot_default (cursor_name : string) (size : Z) :
  ~ In cursor_name offset_names ->
  calculate_hotspot cursor_name size = (size / 2, size / 2).
Proof.
  intros Hn. unfold offset_names in Hn.
  repeat rewrite in_app_iff in Hn.
  unfold calculate_hotspot.
  rewrite (mem_not_In cursor_name arrow_names) by tauto.
  rewrite (mem_not_In cursor_name hand_names) by tauto.
  rewrite (mem_not_In cursor_name top_left_names) by tauto.
  rewrite (mem_not_In cursor_name top_right_names) by tauto.
  rewrite (mem_not_In cursor_name bottom_left_names) by tauto.
  rewrite (mem_not_In cursor_name bottom_right_names) by tauto.
  repeat match goal with |- context [if ?b then _ else _] => destruct b end;
    reflexivity.
Qed.

(** C1. [calculate_hotspot] is a function of the cursor name and the
    size alone, defined on every name and every integer size. Arrow names
    give [(max(1, size//16), max(1, size//16))], hand names
    [(max(1, size*6//32), max(1, size//16))], the four corner lists an
    offset of [max(1, size//8)] from their corner, the text, cross, move,
    wait and forbidden names the centre, and every name outside the
    offset lists the centre [(size//2, size//2)]. *)
Theorem calculate_hotspot_formulas (cursor_name : string) (size : Z) :
  let tip := Z.max 1 (size / 16) in
  let off := Z.max 1 (size / 8) in
  (In cursor_name arrow_names -> calculate_hotspot cursor_name size = (tip, tip)) /\
  (In cursor_name hand_names ->
     calculate_hotspot cursor_name size = (Z.max 1 (size * 6 / 32), tip)) /\
  (In cursor_name top_left_names -> calculate_hotspot cursor_name size = (off, off)) /\
  (In cursor_name top_right_names ->
     calculate_hotspot cursor_name size = (size - off, off)) /\
  (In cursor_name bottom_left_names ->
     calculate_hotspot cursor_name size = (off, size - off)) /\
  (In cursor_name bottom_right_names ->
     calculate_hotspot cursor_name size = (size - off, size - off)) /\
  (In cursor_name
      (text_names ++ cross_names ++ move_names ++ wait_names ++ forbidden_names) ->
     calculate_hotspot cursor_name size = (size / 2, size / 2)) /\
  (~ In cursor_name offset_names ->
     calculate_hotspot cursor_name size = (size / 2, size / 2)).
Proof.
  cbv zeta.
  repeat split; intros H; try (each_name H).
  apply hotspot_default, H.
Qed.

Lemma calculate_hotspot_formulas_witness :
  calculate_hotspot "left_ptr" 32 = (2, 2)
  /\ calculate_hotspot "hand2" 32 = (6, 2)
  /\ calculate_hotspot "top_right_corner" 32 = (28, 4)
  /\ calculate_hotspot "wait" 32 = (16, 16)
  /\ calculate_hotspot "pencil" 32 = (16, 16).
Proof.
  pose proof (calculate_hotspot_formulas "left_ptr" 32) as (H1 & _).
  pose proof (calculate_hotspot_formulas "hand2" 32) as (_ & H2 & _).
  pose proof (calculate_hotspot_formulas "top_right_corner" 32) as (_ & _ & _ & H3 & _).
  pose proof (calculate_hotspot_formulas "wait" 32) as (_ & _ & _ & _ & _ & _ & H4 & _).
  pose proof (calculate_hotspot_formulas "pencil" 32) as (_ & _ & _ & _ & _ & _ & _ & H5).
  refine (conj _ (conj _ (conj _ (conj _ _)))).
  - apply H1. simpl. tauto.
  - apply H2. simpl. tauto.
  - apply H3. simpl. tauto.
  - apply H4. simpl. tauto.
  - apply H5. simpl. intros H. repeat (destruct H as [H|H]; [discriminate H|]). exact H.
Defined.

Ltac div_lia := Z.to_euclidean_division_equations; lia.

(** The bounds hold from size 2 on, for every name. *)
Lemma hotspot_bounds_from_2 (cursor_name : string) (size : Z) :
  2 <= size ->
  let '(x, y) := calculate_hotspot cursor_name size in
  (0 <= x < size /\ 0 <= y < size)
  /\ (In cursor_name offset_names -> 1 <= x /\ 1 <= y).
Proof.
  intros Hs.
  destruct (Py.mem cursor_name offset_names) eqn:E.
  - apply mem_In in E. unfold offset_names in E. simpl in E.
    repeat (destruct E as [<-|E];
            [cbn; split; [split|intros _]; div_lia|]).
    contradiction.
  - assert (Hn : ~ In cursor_name offset_names).
    { intros Hin. apply mem_In in Hin. congruence. }
    rewrite (hotspot_default _ _ Hn).
    split; [split; div_lia | intros Hin; contradiction].
Qed.

(** C3, as stated, fails: a requested size list may hold the size 1,
    and there the arrow tip of [left_ptr] is at (1, 1), outside the
    bitmap [[0, 1)]. *)
Lemma hotspot_outside_at_size_1 :
  ~ (forall (cursor_name : string) (sizes : list Z) (size : Z),
       In size sizes ->
       let '(x, y) := calculate_hotspot cursor_name size in
       (0 <= x < size /\ 0 <= y < size)
       /\ (In cursor_name offset_names -> 1 <= x /\ 1 <= y)).
Proof.
  intros H. specialize (H "left_ptr" [1] 1 (or_introl eq_refl)).
  change (calculate_hotspot "left_ptr" 1) with (1, 1) in H. cbv beta iota in H. lia.
Qed.

(** C3, amended. For every cursor name and every size from 2 on, both
    coordinates of [calculate_hotspot] lie in [[0, size)], and for the
    names of the offset formulas (arrow, hand, corner) both are at
    least 1. *)
Theorem hotspot_within_bitmap (cursor_name : string) (size : Z) :
  2 <= size ->
  let '(x, y) := calculate_hotspot cursor_name size in
  (0 <= x < size /\ 0 <= y < size)
  /\ (In cursor_name offset_names -> 1 <= x /\ 1 <= y).
Proof. apply hotspot_bounds_from_2. Qed.

Lemma hotspot_within_bitmap_witness :
  2 <= 16
  /\ (0 <= 14 < 16 /\ 0 <= 2 < 16)
  /\ (In "top_right_corner" offset_names -> 1 <= 14 /\ 1 <= 2).
Proof.
  assert (H16 : 2 <= 16) by lia.
  split; [exact H16|].
  exact (hotspot_within_bitmap "top_right_corner" 16 H16).
Defined.

(** The bound on the size cannot be lowered: below 2 the arrow tip of
    [left_ptr] is outside the bitmap. *)
Lemma hotspot_outside_below_2 (size : Z) :
  size < 2 ->
  let '(x, y) := calculate_hotspot "left_ptr" size in ~ (0 <= x < size).
Proof.
  intros Hs. cbn. div_lia.
Qed.

(** The size lists of the generator lie above the bound. *)
Lemma hotspot_within_bitmap_standard (cursor_name : string) (size : Z) :
  In size standard_sizes ->
  let '(x, y) := calculate_hotspot cursor_name size in
  (0 <= x < size /\ 0 <= y < size)
  /\ (In cursor_name offset_names -> 1 <= x /\ 1 <= y).
Proof.
  intros Hin. apply hotspot_bounds_from_2.
  unfold standard_sizes in Hin. simpl in Hin.
  repeat (destruct Hin as [<-|Hin]; [lia|]). contradiction.
Qed.

(** The same bounds on the extended size list. *)
Lemma hotspot_within_bitmap_extended (cursor_name : string) (size : Z) :
  In size extended_sizes ->
  let '(x, y) := calculate_hotspot cursor_name size in
  (0 <= x < size /\ 0 <= y < size)
  /\ (In cursor_name offset_names -> 1 <= x /\ 1 <= y).
Proof.
  intros Hin. apply hotspot_bounds_from_2.
  unfold extended_sizes in Hin. simpl in Hin.
  repeat (destruct Hin as [<-|Hin]; [lia|]). contradiction.
Qed.

(** Below size 2 the bounds stop: at size 1 the arrow tip is outside. *)
Example hotspot_size_1 : calculate_hotspot "left_ptr" 1 = (1, 1).
Proof. reflexivity. Qed.

(** ** The basic writer's hotspot against [calculate_hotspot] *)

(** C9, as stated, fails: for [left_ptr] at size 32 the basic writer
    puts the hotspot at (1, 1) and [calculate_hotspot] at (2, 2). *)
Lemma basic_hotspot_differs :
  ~ (forall (cursor_name : string) (size : Z),
       basic_hotspot cursor_name size = calculate_hotspot cursor_name size).
Proof.
  intros H. specialize (H "left_ptr" 32). vm_compute in H. discriminate H.
Qed.

Example basic_hand2_32 :
  basic_hotspot "hand2" 32 = (8, 1) /\ calculate_hotspot "hand2" 32 = (6, 2).
Proof. split; reflexivity. Qed.

Example basic_corner_32 :
  basic_hotspot "top_left_corner" 32 = (16, 16)
  /\ calculate_hotspot "top_left_corner" 32 = (4, 4).
Proof. split; reflexivity. Qed.

Lemma basic_hotspot_default (cursor_name : string) (size : Z) :
  ~ In cursor_name ["left_ptr"; "arrow"; "default"; "hand2"; "hand"; "pointer"] ->
  basic_hotspot cursor_name size = (size / 2, size / 2).
Proof.
  intros Hn. unfold basic_hotspot.
  rewrite (mem_not_In cursor_name ["left_ptr"; "arrow"; "default"])
    by (simpl in *; tauto).
  rewrite (mem_not_In cursor_name ["hand2"; "hand"; "pointer"])
    by (simpl in *; tauto).
  repeat match goal with |- context [if ?b then _ else _] => destruct b end;
    reflexivity.
Qed.

(** C9, amended. The two hotspot computations agree on every name
    outside the arrow, hand and corner lists of [calculate_hotspot] (both
    give the centre), and on [left_ptr], [arrow] and [default] for sizes
    below 32 (both give (1, 1)). *)
Theorem basic_hotspot_agreement (cursor_name : string) (size : Z) :
  (~ In cursor_name offset_names ->
   basic_hotspot cursor_name size = calculate_hotspot cursor_name size)
  /\ (In cursor_name ["left_ptr"; "arrow"; "default"] -> size < 32 ->
      basic_hotspot cursor_name size = calculate_hotspot cursor_name size).
Proof.
  split.
  - intros Hn. rewrite (hotspot_default _ _ Hn).
    apply basic_hotspot_default.
    intros Hin. apply Hn. unfold offset_names, arrow_names, hand_names.
    simpl in *. tauto.
  - intros Hin Hlt. simpl in Hin.
    assert (Htip : Z.max 1 (size / 16) = 1) by div_lia.
    destruct Hin as [<-|[<-|[<-|[]]]]; cbn; rewrite Htip; reflexivity.
Qed.

Lemma basic_hotspot_agreement_witness :
  basic_hotspot "pencil" 32 = calculate_hotspot "pencil" 32
  /\ basic_hotspot "left_ptr" 24 = calculate_hotspot "left_ptr" 24.
Proof.
  destruct (basic_hotspot_agreement "pencil" 32) as [H1 _].
  destruct (basic_hotspot_agreement "left_ptr" 24) as [_ H2].
  refine (conj _ _).
  - apply H1. simpl. intros H.
    repeat (destruct H as [H|H]; [discriminate H|]). exact H.
  - apply H2; [simpl; tauto | lia].
Defined.

(** ** Strings and tokens *)

Lemma app_cons (a : ascii) (s t : string) : String a s +:+ t = String a (s +:+ t).
Proof. reflexivity. Qed.

Lemma app_nil_r (s : string) : s +:+ "" = s.
Proof. induction s as [|a s IH]; [reflexivity|]. rewrite app_cons, IH. reflexivity. Qed.

Lemma app_assoc_str (s t u : string) : (s +:+ t) +:+ u = s +:+ (t +:+ u).
Proof.
  induction s as [|a s IH]; [reflexivity|]. rewrite !app_cons, IH. reflexivity.
Qed.

(** *** White space *)

Lemma starts_with_app (a : ascii) (p s rest : string) :
  no_byte a p = true ->
  Py.starts_with p (s +:+ String a rest) = Py.starts_with p s.
Proof.
  revert s. induction p as [|b p IH]; intros s Hp; [reflexivity|].
  simpl in Hp. apply andb_prop in Hp as [Hb Hp].
  destruct s as [|c s].
  - simpl. apply negb_true_iff in Hb. rewrite Hb. reflexivity.
  - rewrite app_cons. simpl. rewrite IH by exact Hp. reflexivity.
Qed.

(** After its first byte no white-space character holds a space, a
    line feed or a carriage return. *)
Lemma space_chars_tails (a : ascii) :
  In a [" "; "010"; "013"]%char ->
  Forall (fun p => match p with
                   | String _ p' => no_byte a p' = true
                   | EmptyString => False
                   end) Py.space_chars.
Proof.
  intros [<-|[<-|[<-|[]]]]; repeat constructor.
Qed.

Lemma find_ext_in {A : Type} (f g : A -> bool) (l : list A) :
  (forall x, In x l -> f x = g x) -> List.find f l = List.find g l.
Proof.
  induction l as [|x l IH]; intros H; [reflexivity|]. simpl.
  rewrite (H x) by (simpl; auto).
  rewrite IH by (intros y Hy; apply H; simpl; auto). reflexivity.
Qed.

(** A white-space character does not reach over the end of a run that
    a space, a line feed or a carriage return follows. *)
Lemma space_len_app (a : ascii) (c : ascii) (s rest : string) :
  In a [" "; "010"; "013"]%char ->
  Py.space_len (String c s +:+ String a rest) = Py.space_len (String c s).
Proof.
  intros Ha. unfold Py.space_len.
  rewrite (find_ext_in (fun p => Py.starts_with p (String c s +:+ String a rest))
             (fun p => Py.starts_with p (String c s))); [reflexivity|].
  intros p Hp.
  pose proof (space_chars_tails a Ha) as Htails.
  rewrite List.Forall_forall in Htails. specialize (Htails p Hp).
  destruct p as [|b p]; [contradiction|].
  rewrite app_cons. simpl. rewrite starts_with_app by exact Htails. reflexivity.
Qed.

Lemma space_len_other (c : ascii) (s : string) :
  starts_no_space c = true -> Py.space_len (String c s) = O.
Proof.
  intros Hc. unfold Py.space_len.
  destruct (List.find (fun p => Py.starts_with p (String c s)) Py.space_chars)
    as [p|] eqn:E; [|reflexivity].
  apply List.find_some in E as [Hin Hp].
  unfold starts_no_space in Hc. rewrite forallb_forall in Hc. specialize (Hc p Hin).
  destruct p as [|b p]; [|simpl in Hp; apply negb_true_iff in Hc; rewrite Hc in Hp];
    [|discriminate Hp].
  vm_compute in Hin. repeat (destruct Hin as [Hin|Hin]; [discriminate Hin|]).
  destruct Hin.
Qed.

Lemma space_len_space (rest : string) : Py.space_len (String " " rest) = 1%nat.
Proof. reflexivity. Qed.

(** A line feed and a carriage return are white space. *)
Lemma space_len_line_break (c : ascii) (s : string) :
  Ascii.eqb c "010" || Ascii.eqb c "013" = true -> Py.space_len (String c s) = 1%nat.
Proof.
  intros H. apply orb_prop in H as [H|H]; apply Ascii.eqb_eq in H; subst c; reflexivity.
Qed.

Lemma no_space_uint (d : Decimal.uint) : no_space (NilEmpty.string_of_uint d) = true.
Proof.
  induction d; [reflexivity|..];
    cbn [NilEmpty.string_of_uint no_space]; rewrite IHd, andb_true_r;
    rewrite space_len_other by reflexivity; reflexivity.
Qed.

Lemma no_space_str (n : Z) : no_space (Py.str n) = true.
Proof.
  unfold Py.str, NilZero.string_of_int.
  destruct (Z.to_int n) as [d|d]; unfold NilZero.string_of_uint.
  - destruct d; try apply no_space_uint. reflexivity.
  - cbn [no_space]. rewrite space_len_other by reflexivity.
    destruct d; try apply no_space_uint. reflexivity.
Qed.

Lemma str_nonempty (n : Z) : Py.str n <> "".
Proof.
  unfold Py.str, NilZero.string_of_int.
  destruct (Z.to_int n) as [d|d]; unfold NilZero.string_of_uint;
    destruct d; simpl; discriminate.
Qed.

(** The first character of [str n] is a digit or the sign, never [#]. *)
Lemma str_not_comment (n : Z) (rest : string) :
  Py.startswith (Py.str n +:+ rest) "#" = false.
Proof.
  unfold Py.str, NilZero.string_of_int.
  destruct (Z.to_int n) as [d|d]; unfold NilZero.string_of_uint;
    destruct d; reflexivity.
Qed.

(** The text of an integer reads back as that integer, so the size
    column of a config determines the size. *)
Lemma str_read_back (n : Z) :
  option_map Z.of_int (NilZero.int_of_string (Py.str n)) = Some n.
Proof.
  unfold Py.str. rewrite NilZero.isi.
  - simpl. rewrite DecimalZ.of_to. reflexivity.
  - destruct n as [|p|p]; simpl; try discriminate.
    intros H. inversion H as [Hp]. exact (DecimalPos.Unsigned.to_uint_nonnil p Hp).
  - destruct n as [|p|p]; simpl; try discriminate.
    intros H. inversion H as [Hp]. exact (DecimalPos.Unsigned.to_uint_nonnil p Hp).
Qed.

Lemma str_inj (n m : Z) : Py.str n = Py.str m -> n = m.
Proof.
  intros H. pose proof (str_read_back n) as Hn. rewrite H, str_read_back in Hn.
  congruence.
Qed.

(** Reading a word that a space follows: its bytes join the run being
    read, and the space ends the run. *)
Lemma split_from_word (w cur rest : string) :
  no_space w = true ->
  Py.split_from 0 cur (w +:+ String " " rest)
  = Py.emit (cur +:+ w) (Py.split_from 0 "" rest).
Proof.
  revert cur. induction w as [|a w IH]; intros cur Hw.
  - rewrite app_nil_r. reflexivity.
  - cbn [no_space] in Hw. apply andb_prop in Hw as [Ha Hw].
    apply Nat.eqb_eq in Ha.
    rewrite app_cons. cbn [Py.split_from].
    change (String a (w +:+ String " " rest)) with (String a w +:+ String " " rest).
    rewrite space_len_app by (simpl; auto). rewrite Ha.
    rewrite IH by exact Hw.
    rewrite app_assoc_str. reflexivity.
Qed.

Lemma split_from_end (w cur : string) :
  no_space w = true ->
  Py.split_from 0 cur w = Py.emit (cur +:+ w) [].
Proof.
  revert cur. induction w as [|a w IH]; intros cur Hw.
  - rewrite app_nil_r. reflexivity.
  - cbn [no_space] in Hw. apply andb_prop in Hw as [Ha Hw].
    apply Nat.eqb_eq in Ha.
    cbn [Py.split_from]. rewrite Ha, IH by exact Hw.
    rewrite app_assoc_str. reflexivity.
Qed.

Lemma split_word_space (w rest : string) :
  no_space w = true -> w <> "" ->
  Py.split (w +:+ String " " rest) = w :: Py.split rest.
Proof.
  intros Hw Hne. unfold Py.split.
  rewrite split_from_word by exact Hw.
  destruct w; [contradiction|reflexivity].
Qed.

Lemma split_word_end (w : string) :
  no_space w = true -> w <> "" -> Py.split w = [w].
Proof.
  intros Hw Hne. unfold Py.split.
  rewrite split_from_end by exact Hw.
  destruct w; [contradiction|reflexivity].
Qed.

(** A config line without its line feed. *)
Lemma config_line_body (size x y : Z) (image_file : string) :
  config_line size x y image_file =
  (Py.str size +:+ String " " (Py.str x +:+ String " " (Py.str y +:+ String " "
     (image_file +:+ String " " "100")))) +:+ nl.
Proof.
  unfold config_line.
  repeat (rewrite app_assoc_str || rewrite app_cons). reflexivity.
Qed.

Lemma config_line_tokens (size x y : Z) (image_file : string) :
  no_space image_file = true -> image_file <> "" ->
  Py.split (Py.str size +:+ String " " (Py.str x +:+ String " " (Py.str y +:+ String " "
     (image_file +:+ String " " "100")))) =
  [Py.str size; Py.str x; Py.str y; image_file; "100"].
Proof.
  intros Hi Hne.
  rewrite !split_word_space by auto using no_space_str, str_nonempty.
  reflexivity.
Qed.

(** *** Lines *)

Lemma no_line_break_app (s t : string) :
  no_line_break (s +:+ t) = no_line_break s && no_line_break t.
Proof.
  induction s as [|a s IH]; [reflexivity|].
  rewrite app_cons. simpl. rewrite IH. apply andb_assoc.
Qed.

Lemma no_space_no_line_break (s : string) :
  no_space s = true -> no_line_break s = true.
Proof.
  induction s as [|a s IH]; [reflexivity|]. cbn [no_space no_line_break].
  intros H. apply andb_prop in H as [Ha Hs]. rewrite (IH Hs), andb_true_r.
  apply Nat.eqb_eq in Ha.
  destruct (Ascii.eqb a "010" || Ascii.eqb a "013") eqn:E.
  - rewrite (space_len_line_break a s E) in Ha. discriminate Ha.
  - apply orb_false_elim in E as [-> ->]. reflexivity.
Qed.

Lemma no_line_boundary_break (s : string) :
  no_line_boundary s = true -> no_line_break s = true.
Proof.
  induction s as [|a s IH]; [reflexivity|]. cbn [no_line_boundary no_line_break].
  intros H. apply andb_prop in H as [Ha Hs]. rewrite (IH Hs), andb_true_r.
  apply negb_true_iff in Ha.
  destruct (Ascii.eqb_spec a "010") as [->|_]; [discriminate Ha|].
  destruct (Ascii.eqb_spec a "013") as [->|_]; [discriminate Ha|].
  reflexivity.
Qed.

Lemma lines_from_text (l cur rest : string) :
  no_line_break l = true ->
  Py.lines_from cur (l +:+ rest) = Py.lines_from (cur +:+ l) rest.
Proof.
  revert cur. induction l as [|a l IH]; intros cur Hl.
  - rewrite app_nil_r. reflexivity.
  - cbn [no_line_break] in Hl. apply andb_prop in Hl as [Ha Hl].
    apply andb_prop in Ha as [Hlf Hcr].
    apply negb_true_iff in Hlf, Hcr.
    rewrite app_cons. cbn [Py.lines_from]. rewrite Hlf, Hcr.
    rewrite IH by exact Hl.
    rewrite app_assoc_str. reflexivity.
Qed.

Lemma lines_cons (l rest : string) :
  no_line_break l = true ->
  Py.lines ((l +:+ nl) +:+ rest) = l :: Py.lines rest.
Proof.
  intros Hl. unfold Py.lines.
  rewrite app_assoc_str, lines_from_text by exact Hl.
  reflexivity.
Qed.

Lemma lines_concat {A : Type} (f : A -> string) (l : list A) :
  (forall x, In x l -> no_line_break (f x) = true) ->
  Py.lines (foldr (fun x acc => (f x +:+ nl) +:+ acc) "" l) = map f l.
Proof.
  induction l as [|x l IH]; intros H; [reflexivity|].
  simpl. rewrite lines_cons by (apply H; simpl; auto).
  rewrite IH by (intros y Hy; apply H; simpl; auto). reflexivity.
Qed.

Lemma fold_left_append {A : Type} (f : A -> string) (l : list A) (init : string) :
  fold_left (fun acc x => acc +:+ f x) l init = init +:+ foldr (fun x acc => f x +:+ acc) "" l.
Proof.
  revert init. induction l as [|x l IH]; intros init; simpl.
  - rewrite app_nil_r. reflexivity.
  - rewrite IH, app_assoc_str. reflexivity.
Qed.

(** ** File system *)

Lemma walk_end (n : nat) (d : gmap string node) (name : string) :
  match walk n d name with
  | Reached t c => d !! t = Some (File c)
  | Missing t => d !! t = None
  | TooManyLinks => True
  end.
Proof.
  revert name. induction n as [|n IH]; intros name; simpl;
    destruct (d !! name) as [[c|t]|] eqn:E; auto.
  apply IH.
Qed.

(** A write at the end of a chain of links changes where the chains
    that end there arrive, and nothing else. *)
Lemma walk_insert_file (n : nat) (d : gmap string node) (t c name : string) :
  (forall l, d !! t <> Some (Link l)) ->
  walk n (<[t := File c]> d) name =
  match walk n d name with
  | Reached t' c' => if decide (t' = t) then Reached t c else Reached t' c'
  | Missing t' => if decide (t' = t) then Reached t c else Missing t'
  | TooManyLinks => TooManyLinks
  end.
Proof.
  intros Hfile. revert name. induction n as [|n IH]; intros name; simpl.
  - destruct (decide (name = t)) as [->|Hne].
    + rewrite lookup_insert_eq.
      destruct (d !! t) as [[c0|l]|] eqn:E;
        [rewrite decide_True by reflexivity; reflexivity
        | exfalso; exact (Hfile l eq_refl)
        | rewrite decide_True by reflexivity; reflexivity].
    + rewrite lookup_insert_ne by congruence.
      destruct (d !! name) as [[c0|l]|]; try reflexivity;
        rewrite decide_False by exact Hne; reflexivity.
  - destruct (decide (name = t)) as [->|Hne].
    + rewrite lookup_insert_eq.
      destruct (d !! t) as [[c0|l]|] eqn:E;
        [rewrite decide_True by reflexivity; reflexivity
        | exfalso; exact (Hfile l eq_refl)
        | rewrite decide_True by reflexivity; reflexivity].
    + rewrite lookup_insert_ne by congruence.
      destruct (d !! name) as [[c0|l]|]; try reflexivity;
        try (rewrite decide_False by exact Hne; reflexivity).
      apply IH.
Qed.

Lemma extends_refl (d : gmap string node) : extends d d.
Proof. split; [tauto | eauto]. Qed.

Lemma extends_trans (d1 d2 d3 : gmap string node) :
  extends d1 d2 -> extends d2 d3 -> extends d1 d3.
Proof.
  intros [L12 F12] [L23 F23]. split.
  - intros name target. rewrite L12. apply L23.
  - intros name content H. destruct (F12 _ _ H) as [c' H']. eauto.
Qed.

Lemma extends_insert_file (d : gmap string node) (t c : string) :
  (forall l, d !! t <> Some (Link l)) -> extends d (<[t := File c]> d).
Proof.
  intros Hfile. split.
  - intros name target. destruct (decide (name = t)) as [->|Hne].
    + rewrite lookup_insert_eq. split; [intros H; destruct (Hfile _ H) | discriminate].
    + rewrite lookup_insert_ne by congruence. tauto.
  - intros name content H. destruct (decide (name = t)) as [->|Hne].
    + rewrite lookup_insert_eq. eauto.
    + rewrite lookup_insert_ne by congruence. eauto.
Qed.

(** In a directory that extends another, every chain of links arrives
    where it did, unless it was dangling and its end now exists. *)
Lemma walk_extends (n : nat) (d d' : gmap string node) (name : string) :
  extends d d' ->
  match walk n d name with
  | Reached t _ => exists c', walk n d' name = Reached t c'
  | Missing t => walk n d' name = Missing t \/ exists c', walk n d' name = Reached t c'
  | TooManyLinks => walk n d' name = TooManyLinks
  end.
Proof.
  intros [HL HF]. revert name. induction n as [|n IH]; intros name; simpl.
  - destruct (d !! name) as [[c|l]|] eqn:E.
    + destruct (HF _ _ E) as [c' ->]. eauto.
    + apply HL in E. rewrite E. reflexivity.
    + destruct (d' !! name) as [[c'|l']|] eqn:E'; eauto.
      apply HL in E'. congruence.
  - destruct (d !! name) as [[c|l]|] eqn:E.
    + destruct (HF _ _ E) as [c' ->]. eauto.
    + apply HL in E. rewrite E. apply IH.
    + destruct (d' !! name) as [[c'|l']|] eqn:E'; eauto.
      apply HL in E'. congruence.
Qed.


Lemma no_loop_extends (d d' : gmap string node) (name : string) :
  extends d d' ->
  walk link_limit d name <> TooManyLinks -> walk link_limit d' name <> TooManyLinks.
Proof.
  intros He Hn.
  pose proof (walk_extends link_limit d d' name He) as H.
  destruct (walk link_limit d name); [| |congruence].
  - destruct H as [c' ->]. discriminate.
  - destruct H as [->|[c' ->]]; discriminate.
Qed.

(** What [write_file] does: it raises on a chain of links that is too
    long, and otherwise leaves the content at the end of the chain. *)
Lemma write_file_cases (name content : string) (w : world) :
  (walk link_limit (fs w) name = TooManyLinks
   /\ write_file name content w = (Raise OSError, w))
  \/ (exists t,
        write_file name content w = (Ok tt, set_fs (<[t := File content]> (fs w)) w)
        /\ (forall l, fs w !! t <> Some (Link l))
        /\ walk link_limit (<[t := File content]> (fs w)) name = Reached t content).
Proof.
  unfold write_file.
  pose proof (walk_end link_limit (fs w) name) as Hend.
  destruct (walk link_limit (fs w) name) as [t c|t|] eqn:E.
  - right. exists t. split; [reflexivity|].
    assert (Hfile : forall l, fs w !! t <> Some (Link l)) by (intros l; congruence).
    split; [exact Hfile|].
    rewrite walk_insert_file, E by exact Hfile.
    apply decide_True. reflexivity.
  - right. exists t. split; [reflexivity|].
    assert (Hfile : forall l, fs w !! t <> Some (Link l)) by (intros l; congruence).
    split; [exact Hfile|].
    rewrite walk_insert_file, E by exact Hfile.
    apply decide_True. reflexivity.
  - left. auto.
Qed.

(** ** Image Scaler *)

Ltac unfold_M :=
  unfold bind, ret, raise, modify, get, lift, try_except, print in *.

Ltac stay_put :=
  split; [apply extends_refl|]; split; [reflexivity|]; split; [auto|].

Lemma scale_sizes_spec (I : imaging) (img : picture I) (cursor_name : string)
    (sizes : list Z) (m m' : gmap Z string) (w w' : world) (r : result unit) :
  scale_sizes I img cursor_name sizes (m, w) = (r, (m', w')) ->
  extends (fs w) (fs w')
  /\ stdout w' = stdout w
  /\ (forall k v, m' !! k = Some v ->
        m !! k = Some v \/ (In k sizes /\ v = scaled_filename cursor_name k))
  /\ (r = Ok tt -> forall size, In size sizes -> resize_png I img size <> None).
Proof.
  revert m w. induction sizes as [|size rest IH]; intros m w Hrun.
  - inversion Hrun; subst. stay_put. intros _ size [].
  - simpl in Hrun. unfold_M.
    destruct (Z.max (picture_width I img) (picture_height I img) =? 0)%Z.
    { inversion Hrun; subst. stay_put. discriminate. }
    destruct (resize_png I img size) as [png|] eqn:Hpng.
    2:{ inversion Hrun; subst. stay_put. discriminate. }
    simpl in Hrun.
    destruct (write_file_cases (scaled_filename cursor_name size) png w)
      as [[_ Hw]|(t & Hw & Hfile & _)]; rewrite Hw in Hrun; simpl in Hrun.
    { inversion Hrun; subst. stay_put. discriminate. }
    apply IH in Hrun as (Hext & Hout & Hkeys & Hok). simpl in *.
    split; [|split; [|split]].
    + eapply extends_trans; [|exact Hext]. apply extends_insert_file, Hfile.
    + exact Hout.
    + intros k v Hk. destruct (Hkeys k v Hk) as [Hm|[Hin ->]]; [|auto].
      destruct (decide (size = k)) as [->|Hne].
      * rewrite lookup_insert_eq in Hm. inversion Hm; subst. auto.
      * rewrite lookup_insert_ne in Hm by exact Hne. auto.
    + intros Hr s [<-|Hin]; [congruence | auto].
Qed.

Lemma use_original_lookup (original_name : string) (sizes : list Z)
    (m : gmap Z string) (k : Z) :
  (In k sizes -> use_original original_name sizes m !! k = Some original_name)
  /\ (~ In k sizes -> use_original original_name sizes m !! k = m !! k).
Proof.
  revert m. induction sizes as [|size rest IH]; intros m; simpl.
  - tauto.
  - destruct (IH (<[size := original_name]> m)) as [IHin IHout]. split.
    + intros [->|Hin]; [|auto].
      destruct (in_dec Z.eq_dec k rest) as [Hin|Hout]; [auto|].
      rewrite IHout by exact Hout. apply lookup_insert_eq.
    + intros Hn. rewrite IHout by tauto. apply lookup_insert_ne. tauto.
Qed.

(** The Image Scaler always returns; the directory it leaves extends
    the one it found, and every value of its mapping is the original
    file name or the scaled file name of its size. *)
Lemma create_scaled_images_returns (I : imaging) (original_image : src_image)
    (cursor_name : string) (sizes : list Z) (w : world) :
  exists (scaled_images : gmap Z string) (w' : world),
    create_scaled_images I original_image cursor_name sizes w = (Ok scaled_images, w')
    /\ extends (fs w) (fs w')
    /\ (forall k v, scaled_images !! k = Some v ->
          v = image_name original_image \/ v = scaled_filename cursor_name k).
Proof.
  unfold create_scaled_images.
  destruct (image_open I original_image) as [img|].
  - destruct (scale_sizes I img cursor_name sizes (∅, w)) as [r [m w']] eqn:Hrun.
    apply scale_sizes_spec in Hrun as (Hext & _ & Hkeys & _).
    destruct r as [[]|e]; unfold_M; simpl.
    + eexists _, _. split; [reflexivity|]. split; [exact Hext|].
      intros k v Hk. destruct (Hkeys k v Hk) as [Hm|[_ ->]]; [|auto].
      rewrite lookup_empty in Hm. discriminate.
    + eexists _, _. split; [reflexivity|]. split; [exact Hext|].
      intros k v Hk.
      destruct (use_original_lookup (image_name original_image) sizes m k) as [Hin Hout].
      destruct (in_dec Z.eq_dec k sizes) as [Hk'|Hk'].
      * rewrite Hin in Hk by exact Hk'. inversion Hk. auto.
      * rewrite Hout in Hk by exact Hk'.
        destruct (Hkeys k v Hk) as [Hm|[Hc _]]; [|contradiction].
        rewrite lookup_empty in Hm. discriminate.
  - unfold_M. simpl. eexists _, _. split; [reflexivity|].
    split; [apply extends_refl|].
    intros k v Hk.
    destruct (use_original_lookup (image_name original_image) sizes ∅ k) as [Hin Hout].
    destruct (in_dec Z.eq_dec k sizes) as [Hk'|Hk'].
    + rewrite Hin in Hk by exact Hk'. inversion Hk. auto.
    + rewrite Hout, lookup_empty in Hk by exact Hk'. discriminate.
Qed.

Lemma fold_left_pointwise {A B : Type} (f g : A -> B -> A) (l : list B) (a : A) :
  (forall acc x, f acc x = g acc x) -> fold_left f l a = fold_left g l a.
Proof.
  intros H. revert a. induction l as [|x l IH]; intros a; simpl; [reflexivity|].
  rewrite H. apply IH.
Qed.

(** The text the writer builds, line by line. *)
Lemma optimized_content_lines (cursor_name original_name : string)
    (scaled_images : gmap Z string) (sizes : list Z) :
  optimized_content cursor_name original_name scaled_images sizes =
  content_with (fun size => default original_name (scaled_images !! size))
    cursor_name sizes.
Proof.
  unfold optimized_content, content_with.
  rewrite <- (fold_left_append
    (fun size => let '(x, y) := calculate_hotspot cursor_name size in
                 config_line size x y (default original_name (scaled_images !! size)))).
  apply fold_left_pointwise. intros acc size.
  destruct (calculate_hotspot cursor_name size). reflexivity.
Qed.

Lemma content_with_ext (f g : Z -> string) (cursor_name : string) (sizes : list Z) :
  (forall size, In size sizes -> f size = g size) ->
  content_with f cursor_name sizes = content_with g cursor_name sizes.
Proof.
  intros H. unfold content_with. f_equal.
  induction sizes as [|size rest IH]; [reflexivity|]. simpl.
  rewrite (H size) by (simpl; auto).
  rewrite IH by (intros s Hs; apply H; simpl; auto). reflexivity.
Qed.

(** ** Cursor Config Writer *)

(** The writer runs the scaler, then either cannot open the config file
    (its name starts a chain of links that is too long) and raises, or
    returns with the config text readable under the config name. *)
Lemma config_writer_cases (I : imaging) (cursor_name : string)
    (original_image : src_image) (sizes : list Z) (w : world) :
  exists (scaled_images : gmap Z string) (w1 : world),
    create_scaled_images I original_image cursor_name sizes w = (Ok scaled_images, w1)
    /\ extends (fs w) (fs w1)
    /\ ((walk link_limit (fs w) (cursor_file cursor_name) = TooManyLinks
         /\ create_optimized_multisize_config I cursor_name original_image sizes w
            = (Raise OSError, w1))
        \/ (walk link_limit (fs w) (cursor_file cursor_name) <> TooManyLinks
            /\ exists w2,
                 create_optimized_multisize_config I cursor_name original_image sizes w
                 = (Ok tt, w2)
                 /\ extends (fs w) (fs w2)
                 /\ read_file (fs w2) (cursor_file cursor_name)
                    = Some (optimized_content cursor_name (image_name original_image)
                              scaled_images sizes))).
Proof.
  destruct (create_scaled_images_returns I original_image cursor_name sizes w)
    as (m & w1 & Hscale & Hext & _).
  exists m, w1. split; [exact Hscale|]. split; [exact Hext|].
  unfold create_optimized_multisize_config, bind. rewrite Hscale.
  destruct (write_file_cases (cursor_file cursor_name)
              (optimized_content cursor_name (image_name original_image) m sizes) w1)
    as [[Hloop Hw]|(t & Hw & Hfile & Hread)]; rewrite Hw.
  - left. split; [|reflexivity].
    pose proof (walk_extends link_limit (fs w) (fs w1) (cursor_file cursor_name) Hext) as H.
    destruct (walk link_limit (fs w) (cursor_file cursor_name)); [| |reflexivity].
    + destruct H as [c' H]. congruence.
    + destruct H as [H|[c' H]]; congruence.
  - right. split.
    + intros Hloop.
      pose proof (walk_extends link_limit (fs w) (fs w1) (cursor_file cursor_name) Hext) as H.
      rewrite Hloop in H.
      pose proof (walk_end link_limit (fs w1) (cursor_file cursor_name)) as He.
      unfold write_file in Hw. rewrite H in Hw. discriminate Hw.
    + eexists. split; [reflexivity|]. simpl. split.
      * eapply extends_trans; [exact Hext|]. apply extends_insert_file, Hfile.
      * unfold read_file. rewrite Hread. reflexivity.
Qed.



(** The text of a data line before its line feed. *)
Lemma content_with_lines (image_of : Z -> string) (cursor_name : string) (sizes : list Z) :
  content_with image_of cursor_name sizes =
  (("# " +:+ cursor_name +:+ " cursor - Optimized multi-size") +:+ nl)
  +:+ foldr (fun size acc =>
       ((Py.str size +:+ String " " (Py.str (fst (calculate_hotspot cursor_name size))
          +:+ String " " (Py.str (snd (calculate_hotspot cursor_name size))
          +:+ String " " (image_of size +:+ String " " "100")))) +:+ nl) +:+ acc)
     "" sizes.
Proof.
  unfold content_with. f_equal.
  - repeat (rewrite app_assoc_str || rewrite app_cons). reflexivity.
  - induction sizes as [|size rest IH]; [reflexivity|]. simpl.
    rewrite IH. destruct (calculate_hotspot cursor_name size) as [x y]. simpl.
    rewrite config_line_body. reflexivity.
Qed.

Lemma content_with_well_formed (image_of : Z -> string) (cursor_name : string)
    (sizes : list Z) :
  no_line_break cursor_name = true ->
  (forall size, In size sizes ->
     no_space (image_of size) = true /\ image_of size <> "") ->
  well_formed_config sizes (content_with image_of cursor_name sizes).
Proof.
  intros Hname Himg.
  rewrite content_with_lines.
  set (body := fun size : Z =>
    Py.str size +:+ String " " (Py.str (fst (calculate_hotspot cursor_name size))
      +:+ String " " (Py.str (snd (calculate_hotspot cursor_name size))
      +:+ String " " (image_of size +:+ String " " "100")))).
  exists ("# " +:+ cursor_name +:+ " cursor - Optimized multi-size"), (map body sizes).
  split; [|split; [reflexivity|split]].
  - rewrite lines_cons.
    + f_equal. apply (lines_concat body).
      intros size Hin. destruct (Himg size Hin) as [Hi _].
      unfold body.
      repeat (rewrite no_line_break_app; cbn [no_line_break]).
      rewrite !no_space_no_line_break by auto using no_space_str. reflexivity.
    + change (no_line_break
                (String "#" (String " " (cursor_name +:+ " cursor - Optimized multi-size")))
              = true).
      cbn [no_line_break]. rewrite no_line_break_app, Hname. reflexivity.
  - apply List.Forall_forall. intros line Hin.
    apply in_map_iff in Hin as (size & <- & _). apply str_not_comment.
  - clear Hname. induction sizes as [|size rest IH]; simpl; constructor.
    + destruct (Himg size) as [Hi Hne]; [simpl; auto|].
      eexists _, _, _. apply config_line_tokens; assumption.
    + apply IH. intros s Hs. apply Himg. simpl. auto.
Qed.

(** The image file the config names for a size is the source file name
    or the scaled file name of that size. *)
Lemma config_image_values (I : imaging) (original_image : src_image)
    (cursor_name : string) (sizes : list Z) (w : world) (size : Z) :
  config_image I original_image cursor_name sizes w size = image_name original_image
  \/ config_image I original_image cursor_name sizes w size
     = scaled_filename cursor_name size.
Proof.
  unfold config_image.
  destruct (create_scaled_images_returns I original_image cursor_name sizes w)
    as (m & w1 & -> & _ & Hvalues).
  destruct (m !! size) as [v|] eqn:E; simpl; [|auto].
  destruct (Hvalues size v E) as [->| ->]; auto.
Qed.

(** C5, as stated, fails: when the source file name holds a space and
    the scaler falls back to it, the data line splits into six tokens. *)
Lemma config_line_with_space :
  ~ writes_well_formed_config broken_imaging "left_ptr"
      (SrcImage "my pointer.png" "my pointer.png") [16] empty_world.
Proof.
  intros (w' & content & Hrun & Hread & header & data & Hlines & _ & _ & Hall).
  vm_compute in Hrun. inversion Hrun; subst w'; clear Hrun.
  vm_compute in Hread. inversion Hread; subst content; clear Hread.
  vm_compute in Hlines. inversion Hlines; subst header data; clear Hlines.
  inversion Hall as [|size line sizes' data' (x & y & image_file & Hsplit) Hrest]; subst.
  vm_compute in Hsplit. discriminate Hsplit.
Qed.

(** The same with the no-break space U+00A0, which [str.split()]
    separates on as well. *)
Example config_line_with_no_break_space :
  ~ writes_well_formed_config broken_imaging "left_ptr"
      (SrcImage no_break_space_name no_break_space_name) [16] empty_world.
Proof.
  intros (w' & content & Hrun & Hread & header & data & Hlines & _ & _ & Hall).
  vm_compute in Hrun. inversion Hrun; subst w'; clear Hrun.
  vm_compute in Hread. inversion Hread; subst content; clear Hread.
  vm_compute in Hlines. inversion Hlines; subst header data; clear Hlines.
  inversion Hall as [|size line sizes' data' (x & y & image_file & Hsplit) Hrest]; subst.
  vm_compute in Hsplit. discriminate Hsplit.
Qed.

(** C5, amended. In an existing cursors directory, for a cursor name
    that is a plain file name and a [str] without line boundary, whose
    config name does not start a chain of links that is too long: when
    every image file the config is to name for a requested size (the
    scaled file of that size, or the source file after a fallback) is a
    single token, the writer returns and the file it leaves reads as a
    comment header starting with [#] followed by one non-comment line
    per requested size, in the order of the size list; each of these
    lines splits on white space into exactly five tokens, the first the
    size and the last 100. *)
Theorem config_file_format (I : imaging) (cursor_name : string)
    (original_image : src_image) (sizes : list Z) (w : world) :
  has_dir w = true ->
  Py.plain_name cursor_name = true ->
  Py.well_encoded cursor_name = true ->
  no_line_boundary cursor_name = true ->
  walk link_limit (fs w) (cursor_file cursor_name) <> TooManyLinks ->
  (forall size, In size sizes ->
     single_token (config_image I original_image cursor_name sizes w size)) ->
  writes_well_formed_config I cursor_name original_image sizes w.
Proof.
  intros _ _ _ Hname Hloop Htokens.
  destruct (config_writer_cases I cursor_name original_image sizes w)
    as (m & w1 & Hrun & _ & [[Hl _]|(_ & w2 & Hcfg & _ & Hread)]);
    [contradiction|].
  exists w2, (optimized_content cursor_name (image_name original_image) m sizes).
  split; [exact Hcfg|]. split; [exact Hread|].
  rewrite optimized_content_lines.
  apply content_with_well_formed; [apply no_line_boundary_break, Hname|].
  intros size Hin. destruct (Htokens size Hin) as (Hne & _ & Hspace).
  unfold config_image in Hne, Hspace. rewrite Hrun in Hne, Hspace. auto.
Qed.

Lemma config_file_format_witness :
  writes_well_formed_config sample_imaging "left_ptr"
    (SrcImage "my pointer.png" "my pointer.png") [16; 32] empty_world
  /\ writes_well_formed_config broken_imaging "left_ptr"
       (SrcImage "pointer.png" "pointer.png") [16; 32] empty_world.
Proof.
  split; apply config_file_format; try reflexivity;
    try (vm_compute; discriminate);
    intros size [<-|[<-|[]]];
    (split; [vm_compute; discriminate | split; reflexivity]).
Defined.

(** ** Essential Cursor Synthesizer: the image of a required name *)



(** C2. For the required name [default], whose fallback is [left_ptr],
    with [pointer.png] (the source image of [left_ptr]) available but
    listed after [link.png]: the code takes [link.png], the first of the
    listing, while the preference order of the specification gives
    [pointer.png]. *)
Theorem find_image_skips_fallback :
  In ("default", "left_ptr") essential_cursors
  /\ Py.has_key "default" image_to_cursor_map = false
  /\ find_image image_to_cursor_map link_then_pointer "left_ptr"
     = Ok (Some (SrcImage "link.png" "link.png"))
  /\ preferred_image image_to_cursor_map link_then_pointer "left_ptr"
     = Some (SrcImage "pointer.png" "pointer.png").
Proof.
  split; [simpl; auto|]. repeat split.
Qed.

(** The config written for [default] then names the scaled copies of
    [link.png]'s picture, and the synthesizer returns. *)
Example essential_default_from_link :
  exists w',
    essential_cursor sample_imaging image_to_cursor_map link_then_pointer [16]
      ("default", "left_ptr") empty_world = (Ok tt, w')
    /\ read_file (fs w') "default.cursor"
       = Some ("# default cursor - Optimized multi-size" +:+ nl
               +:+ "16 1 1 default_16x16.png 100" +:+ nl).
Proof. eexists. split; vm_compute; reflexivity. Qed.

(** ** Essential Cursor Synthesizer: running it again *)

Section Synthesizer.

Variable cursor_map : list (string * string).
Variable available_images : list (string * src_image).
Variable sizes : list Z.






(** *** A second run after a file-system error *)












End Synthesizer.


(** ** Alias Linker *)

Lemma length_app_str (s t : string) :
  String.length (s +:+ t) = (String.length s + String.length t)%nat.
Proof.
  induction s as [|a s IH]; [reflexivity|]. rewrite app_cons. simpl. rewrite IH. reflexivity.
Qed.

Lemma cursor_file_inj (s t : string) : cursor_file s = cursor_file t -> s = t.
Proof.
  unfold cursor_file. revert t. induction s as [|a s IH]; intros [|b t] H.
  - reflexivity.
  - apply (f_equal String.length) in H. rewrite app_cons in H. simpl in H.
    rewrite length_app_str in H. simpl in H. lia.
  - apply (f_equal String.length) in H. rewrite app_cons in H. simpl in H.
    rewrite length_app_str in H. simpl in H. lia.
  - rewrite !app_cons in H. inversion H. f_equal. auto.
Qed.

(** The search returns the first name of the group whose config exists. *)
Lemma find_source_first (d : gmap string node) (group : list string) (source : string) :
  find_source d group = Some source ->
  exists before after,
    group = (before ++ source :: after)%list
    /\ path_exists d (cursor_file source) = true
    /\ forall name, In name before -> path_exists d (cursor_file name) = false.
Proof.
  induction group as [|cursor rest IH]; simpl; [discriminate|].
  destruct (path_exists d (cursor_file cursor)) eqn:Hex.
  - intros H. inversion H; subst. exists [], rest. simpl. tauto.
  - intros H. destruct (IH H) as (before & after & -> & Hs & Hb).
    exists (cursor :: before), after. simpl. split; [reflexivity|]. split; [exact Hs|].
    intros name [<-|Hin]; auto.
Qed.

Lemma find_source_none (d : gmap string node) (group : list string) :
  find_source d group = None ->
  forall name, In name group -> path_exists d (cursor_file name) = false.
Proof.
  induction group as [|cursor rest IH]; simpl; [tauto|].
  destruct (path_exists d (cursor_file cursor)) eqn:Hex; [discriminate|].
  intros H name [<-|Hin]; auto.
Qed.

(** One alias: every entry of the directory is kept as it is. *)
Lemma link_alias_keeps (P : platform) (source alias : string) (w w' : world)
    (r : result unit) :
  link_alias P source alias w = (r, w') -> fs w ⊆ fs w'.
Proof.
  unfold link_alias.
  destruct (String.eqb alias source); simpl;
    [intros H; inversion H; subst; reflexivity|].
  unfold_M.
  destruct (path_exists (fs w) (cursor_file alias)) eqn:Hex; simpl;
    [intros H; inversion H; subst; reflexivity|].
  unfold symlink_to.
  destruct (fs w !! cursor_file alias) as [entry|] eqn:Hentry.
  - unfold copy2.
    destruct (walk link_limit (fs w) (cursor_file source)) as [t c|t|];
      try (intros H; inversion H; subst; reflexivity).
    unfold write_file. unfold path_exists in Hex.
    pose proof (walk_end link_limit (fs w) (cursor_file alias)) as Hend.
    destruct (walk link_limit (fs w) (cursor_file alias)) as [t' c'|t'|];
      [discriminate Hex| |]; intros H; inversion H; subst; [|reflexivity].
    simpl. apply insert_subseteq, Hend.
  - destruct (can_symlink P (cursor_file alias)).
    + intros H. inversion H; subst. simpl. apply insert_subseteq, Hentry.
    + unfold copy2.
      destruct (walk link_limit (fs w) (cursor_file source)) as [t c|t|];
        try (intros H; inversion H; subst; reflexivity).
      unfold write_file. unfold path_exists in Hex.
      pose proof (walk_end link_limit (fs w) (cursor_file alias)) as Hend.
      destruct (walk link_limit (fs w) (cursor_file alias)) as [t' c'|t'|];
        [discriminate Hex| |]; intros H; inversion H; subst; [|reflexivity].
      simpl. apply insert_subseteq, Hend.
Qed.

Lemma link_aliases_keep (P : platform) (source : string) (aliases : list string)
    (w w' : world) (r : result unit) :
  for_each (link_alias P source) aliases w = (r, w') -> fs w ⊆ fs w'.
Proof.
  revert w. induction aliases as [|alias rest IH]; intros w H; simpl in H.
  - inversion H; subst. reflexivity.
  - unfold bind in H.
    destruct (link_alias P source alias w) as [r0 w0] eqn:Hstep.
    apply link_alias_keeps in Hstep.
    destruct r0 as [[]|e].
    + etrans; [exact Hstep | eauto].
    + inversion H; subst. exact Hstep.
Qed.

Lemma link_group_keeps (P : platform) (group : list string) (w w' : world)
    (r : result unit) :
  link_group P group w = (r, w') -> fs w ⊆ fs w'.
Proof.
  unfold link_group. unfold_M.
  destruct (find_source (fs w) group) as [source|];
    [|intros H; inversion H; subst; reflexivity].
  destruct (String.eqb source ""); [intros H; inversion H; subst; reflexivity|].
  apply link_aliases_keep.
Qed.

Lemma link_groups_keep (P : platform) (groups : list (list string)) (w w' : world)
    (r : result unit) :
  for_each (link_group P) groups w = (r, w') -> fs w ⊆ fs w'.
Proof.
  revert w. induction groups as [|group rest IH]; intros w H; simpl in H.
  - inversion H; subst. reflexivity.
  - unfold bind in H.
    destruct (link_group P group w) as [r0 w0] eqn:Hstep.
    apply link_group_keeps in Hstep.
    destruct r0 as [[]|e].
    + etrans; [exact Hstep | eauto].
    + inversion H; subst. exact Hstep.
Qed.

(** The whole linker keeps every entry it finds. *)
Lemma create_fullsize_aliases_keeps (P : platform) (w w' : world) (r : result unit) :
  create_fullsize_aliases P w = (r, w') -> fs w ⊆ fs w'.
Proof. apply link_groups_keep. Qed.

Lemma walk_file (n : nat) (d : gmap string node) (name content : string) :
  d !! name = Some (File content) -> walk n d name = Reached name content.
Proof. intros H. destruct n; simpl; rewrite H; reflexivity. Qed.

Lemma walk_none (n : nat) (d : gmap string node) (name : string) :
  d !! name = None -> walk n d name = Missing name.
Proof. intros H. destruct n; simpl; rewrite H; reflexivity. Qed.

Lemma walk_link (n : nat) (d : gmap string node) (name target : string) :
  d !! name = Some (Link target) -> walk (S n) d name = walk n d target.
Proof. intros H. simpl. rewrite H. reflexivity. Qed.

(** One alias, when the canonical config is a regular file and the
    alias name is free, a regular file, or a link to the canonical
    config: the linker returns, and it fills the free name only. *)
Lemma link_alias_regular (P : platform) (source content alias : string) (w : world) :
  fs w !! cursor_file source = Some (File content) ->
  (forall t, fs w !! cursor_file alias = Some (Link t) -> t = cursor_file source) ->
  exists w',
    link_alias P source alias w = (Ok tt, w')
    /\ ((fs w' = fs w /\ (alias = source \/ fs w !! cursor_file alias <> None))
        \/ (alias <> source
            /\ fs w !! cursor_file alias = None
            /\ fs w' = <[cursor_file alias := alias_node P source content alias]> (fs w))).
Proof.
  intros Hsrc Hlink. unfold link_alias.
  destruct (String.eqb_spec alias source) as [->|Hne]; simpl.
  { exists w. split; [reflexivity|]. left. auto. }
  unfold_M. unfold path_exists.
  destruct (fs w !! cursor_file alias) as [[c|t]|] eqn:Hentry.
  - rewrite (walk_file _ _ _ _ Hentry). simpl.
    exists w. split; [reflexivity|]. left. split; [reflexivity|]. right. discriminate.
  - unfold link_limit. rewrite (walk_link _ _ _ _ Hentry).
    rewrite (Hlink t eq_refl), (walk_file _ _ _ _ Hsrc). simpl.
    exists w. split; [reflexivity|]. left. split; [reflexivity|]. right. discriminate.
  - rewrite (walk_none _ _ _ Hentry). simpl.
    unfold symlink_to, alias_node. rewrite Hentry.
    destruct (can_symlink P (cursor_file alias)).
    + eexists. split; [reflexivity|]. right. auto.
    + unfold copy2. rewrite (walk_file _ _ _ _ Hsrc).
      unfold write_file. rewrite (walk_none _ _ _ Hentry).
      eexists. split; [reflexivity|]. right. auto.
Qed.

Lemma link_aliases_regular (P : platform) (source content : string)
    (aliases : list string) (w : world) :
  fs w !! cursor_file source = Some (File content) ->
  (forall n t, In n aliases -> fs w !! cursor_file n = Some (Link t) ->
     t = cursor_file source) ->
  exists w',
    for_each (link_alias P source) aliases w = (Ok tt, w')
    /\ fs w' !! cursor_file source = Some (File content)
    /\ (forall n, In n aliases -> n <> source -> fs w !! cursor_file n = None ->
          fs w' !! cursor_file n = Some (alias_node P source content n))
    /\ (forall k, (forall n, In n aliases -> k <> cursor_file n) ->
          fs w' !! k = fs w !! k).
Proof.
  revert w. induction aliases as [|alias rest IH]; intros w Hsrc Hlinks; simpl.
  - exists w. split; [reflexivity|]. split; [exact Hsrc|].
    split; [intros n []|reflexivity].
  - destruct (link_alias_regular P source content alias w Hsrc) as (w1 & Hstep & Hcase).
    { intros t. apply Hlinks. simpl. auto. }
    assert (Hsrc1 : fs w1 !! cursor_file source = Some (File content)).
    { destruct Hcase as [[-> _]|(Hne & _ & ->)]; [exact Hsrc|].
      rewrite lookup_insert_ne; [exact Hsrc|].
      intros H. apply cursor_file_inj in H. congruence. }
    assert (Hlinks1 : forall n t, In n rest ->
              fs w1 !! cursor_file n = Some (Link t) -> t = cursor_file source).
    { intros n t Hin. destruct Hcase as [[-> _]|(Hne & _ & ->)].
      - apply Hlinks. simpl. auto.
      - destruct (decide (cursor_file alias = cursor_file n)) as [Heq|Hneq].
        + rewrite Heq, lookup_insert_eq. unfold alias_node.
          destruct (can_symlink P (cursor_file alias)); congruence.
        + rewrite lookup_insert_ne by exact Hneq. apply Hlinks. simpl. auto. }
    destruct (IH w1 Hsrc1 Hlinks1) as (w' & Hrest & Hsrc' & Hnew & Hframe).
    exists w'. unfold bind. rewrite Hstep. split; [exact Hrest|]. split; [exact Hsrc'|].
    split.
    2:{ intros k Hk. rewrite Hframe by (intros n Hn; apply Hk; auto).
        destruct Hcase as [[-> _]|(_ & _ & ->)]; [reflexivity|].
        apply lookup_insert_ne. intros Heq. apply (Hk alias); auto. }
    intros n Hin Hns Hnone.
    assert (Hkeep : fs w1 ⊆ fs w') by (eapply link_aliases_keep; eauto).
    destruct (String.eqb_spec n alias) as [->|Hna].
    + destruct Hcase as [[_ [Heq|Hsome]]|(_ & _ & Hfs)]; [congruence..|].
      eapply lookup_weaken; [|exact Hkeep].
      rewrite Hfs. apply lookup_insert_eq.
    + destruct Hin as [Heq|Hin]; [congruence|].
      apply Hnew; [exact Hin | exact Hns|].
      destruct Hcase as [[-> _]|(_ & _ & ->)]; [exact Hnone|].
      rewrite lookup_insert_ne; [exact Hnone|].
      intros H. apply cursor_file_inj in H. congruence.
Qed.

(** C6, as stated, fails in its last part: when the canonical config is
    itself a link, every new alias is two links away from the file. *)
Lemma alias_of_linked_canonical :
  ~ aliases_within_one_hop linking_platform
      ["left_ptr"; "default"; "arrow"; "top_left_arrow"] linked_left_ptr.
Proof.
  intros H.
  assert (Hsrc : find_source (fs linked_left_ptr)
                   ["left_ptr"; "default"; "arrow"; "top_left_arrow"] <> None)
    by (vm_compute; discriminate).
  destruct (H Hsrc "default") as (t & c & Hwalk); [simpl; auto|].
  vm_compute in Hwalk. discriminate Hwalk.
Qed.

Example alias_of_linked_canonical_entries :
  let d := fs (snd (link_group linking_platform
                      ["left_ptr"; "default"; "arrow"; "top_left_arrow"] linked_left_ptr)) in
  d !! "default.cursor" = Some (Link "left_ptr.cursor")
  /\ d !! "left_ptr.cursor" = Some (Link "real.cursor")
  /\ d !! "real.cursor" = Some (File "# left_ptr").
Proof. vm_compute. auto. Qed.

(** A group whose config names are not links and whose canonical name
    is not empty: the linker returns, fills the free names of the group
    and touches no other name. *)
Lemma link_group_regular (P : platform) (group : list string) (w : world)
    (source : string) :
  find_source (fs w) group = Some source ->
  source <> "" ->
  group_regular (fs w) group ->
  exists content w',
    fs w !! cursor_file source = Some (File content)
    /\ link_group P group w = (Ok tt, w')
    /\ (forall alias, In alias group -> alias <> source ->
          path_exists (fs w) (cursor_file alias) = false ->
          fs w' !! cursor_file alias = Some (alias_node P source content alias))
    /\ (forall name, In name group -> within_one_hop (fs w') (cursor_file name))
    /\ (forall k, (forall n, In n group -> k <> cursor_file n) ->
          fs w' !! k = fs w !! k).
Proof.
  intros Hsource Hne Hreg.
  destruct (find_source_first _ _ _ Hsource) as (before & after & Hgroup & Hex & _).
  assert (Hin_source : In source group).
  { rewrite Hgroup. apply in_or_app. simpl. auto. }
  assert (Hfile : exists content, fs w !! cursor_file source = Some (File content)).
  { unfold path_exists in Hex.
    destruct (fs w !! cursor_file source) as [[c|t]|] eqn:E.
    - eauto.
    - destruct (Hreg source t Hin_source E).
    - rewrite (walk_none _ _ _ E) in Hex. discriminate. }
  destruct Hfile as [content Hfile].
  destruct (link_aliases_regular P source content group w Hfile)
    as (w' & Hloop & Hsrc' & Hnew & Hframe).
  { intros n t Hin E. destruct (Hreg n t Hin E). }
  exists content, w'. split; [exact Hfile|].
  split.
  { unfold link_group. unfold_M. rewrite Hsource.
    destruct (String.eqb_spec source "") as [Hempty|_]; [contradiction|].
    exact Hloop. }
  assert (Hfree : forall alias, In alias group ->
            path_exists (fs w) (cursor_file alias) = false ->
            fs w !! cursor_file alias = None).
  { intros alias Hin Hno. unfold path_exists in Hno.
    destruct (fs w !! cursor_file alias) as [[c|t]|] eqn:E; [| |reflexivity].
    - rewrite (walk_file _ _ _ _ E) in Hno. discriminate.
    - destruct (Hreg alias t Hin E). }
  split; [|split; [|exact Hframe]].
  - intros alias Hin Hns Hno. apply Hnew; auto.
  - intros name Hin. unfold within_one_hop.
    assert (Hkeep : fs w ⊆ fs w') by (eapply link_aliases_keep; eauto).
    destruct (fs w !! cursor_file name) as [[c|t]|] eqn:E.
    + exists (cursor_file name), c. apply walk_file.
      eapply lookup_weaken; eauto.
    + destruct (Hreg name t Hin E).
    + assert (Hns : name <> source) by (intros ->; congruence).
      pose proof (Hnew name Hin Hns E) as Hnode. unfold alias_node in Hnode.
      destruct (can_symlink P (cursor_file name)).
      * exists (cursor_file source), content.
        rewrite (walk_link _ _ _ _ Hnode). apply walk_file, Hsrc'.
      * exists (cursor_file name), content. apply walk_file, Hnode.
Qed.

Lemma within_one_hop_keeps (d d' : gmap string node) (name : string) :
  d ⊆ d' -> within_one_hop d name -> within_one_hop d' name.
Proof.
  intros Hsub (t & c & Hwalk). unfold within_one_hop. simpl in *.
  destruct (d !! name) as [[c0|l]|] eqn:E; [| |discriminate].
  - rewrite (lookup_weaken _ _ _ _ E Hsub). eauto.
  - rewrite (lookup_weaken _ _ _ _ E Hsub).
    destruct (d !! l) as [[c1|l1]|] eqn:El; try discriminate.
    rewrite (lookup_weaken _ _ _ _ El Hsub). eauto.
Qed.

Lemma find_source_In (d : gmap string node) (group : list string) (source : string) :
  find_source d group = Some source -> In source group.
Proof.
  intros H. destruct (find_source_first _ _ _ H) as (before & after & -> & _).
  apply in_or_app. simpl. auto.
Qed.

(** A dangling link among the config names is another way out of the
    one-link bound: [arrow.cursor] points at the free name
    [default.cursor], which the linker then makes a link itself. *)
Example dangling_alias_two_hops :
  ~ aliases_within_one_hop linking_platform ["left_ptr"; "default"; "arrow"]
      dangling_arrow.
Proof.
  intros H.
  assert (Hsrc : find_source (fs dangling_arrow) ["left_ptr"; "default"; "arrow"] <> None)
    by (vm_compute; discriminate).
  destruct (H Hsrc "arrow") as (t & c & Hwalk); [simpl; auto|].
  vm_compute in Hwalk. discriminate Hwalk.
Qed.

(** With a linked canonical config the copies of the fallback are
    still regular files: the bound is lost only where links are made. *)
Example linked_canonical_copies :
  aliases_within_one_hop copying_platform
    ["left_ptr"; "default"; "arrow"; "top_left_arrow"] linked_left_ptr.
Proof.
  intros _ name Hin. simpl in Hin.
  destruct Hin as [<-|[<-|[<-|[<-|[]]]]]; vm_compute; eauto.
Qed.

(** ** Alias Linker: running it again *)

Lemma walk_more_fuel (n k : nat) (d : gmap string node) (name t c : string) :
  walk n d name = Reached t c -> walk (n + k) d name = Reached t c.
Proof.
  revert name. induction n as [|n IH]; intros name; simpl.
  - destruct (d !! name) as [[c0|l]|] eqn:E; try discriminate.
    intros H. rewrite (walk_file _ _ _ _ E). exact H.
  - destruct (d !! name) as [[c0|l]|]; try discriminate; auto.
Qed.

(** ** Theme creation *)

Lemma walk_subseteq (n : nat) (d d' : gmap string node) (name t c : string) :
  d ⊆ d' -> walk n d name = Reached t c -> walk n d' name = Reached t c.
Proof.
  intros Hsub. revert name. induction n as [|n IH]; intros name; simpl.
  - destruct (d !! name) as [[c0|l]|] eqn:E; try discriminate.
    rewrite (lookup_weaken _ _ _ _ E Hsub). auto.
  - destruct (d !! name) as [[c0|l]|] eqn:E; try discriminate;
      rewrite (lookup_weaken _ _ _ _ E Hsub); auto.
Qed.

(** A dangling link keeps its place: the copy of the fallback lands
    at the name it points at. *)
Example dangling_alias_copy :
  let d := fs (snd (link_group linking_platform ["left_ptr"; "default"; "arrow"]
                      dangling_spare)) in
  d !! "arrow.cursor" = Some (Link "spare.cursor")
  /\ d !! "spare.cursor" = Some (File "# left_ptr").
Proof. vm_compute. auto. Qed.

(** One alias, when the canonical config is within one link of a
    regular file, the alias name is free, a regular file, or a link
    straight to a regular file, and a free alias name can be made a link
    only where the canonical config is a regular file: the linker
    returns, and it fills the free name only. *)
Lemma link_alias_direct (P : platform) (source target content alias : string)
    (w : world) :
  walk 1 (fs w) (cursor_file source) = Reached target content ->
  (forall t, fs w !! cursor_file alias = Some (Link t) ->
     exists c, fs w !! t = Some (File c)) ->
  exists w',
    link_alias P source alias w = (Ok tt, w')
    /\ ((fs w' = fs w /\ (alias = source \/ fs w !! cursor_file alias <> None))
        \/ (alias <> source
            /\ fs w !! cursor_file alias = None
            /\ fs w' = <[cursor_file alias := alias_node P source content alias]> (fs w))).
Proof.
  intros Hsrc Hlink. unfold link_alias.
  destruct (String.eqb_spec alias source) as [->|Hne]; simpl.
  { exists w. split; [reflexivity|]. left. auto. }
  unfold_M. unfold path_exists.
  destruct (fs w !! cursor_file alias) as [[c|t]|] eqn:Hentry.
  - rewrite (walk_file _ _ _ _ Hentry). simpl.
    exists w. split; [reflexivity|]. left. split; [reflexivity|]. right. discriminate.
  - unfold link_limit. rewrite (walk_link _ _ _ _ Hentry).
    destruct (Hlink t eq_refl) as [c Ht].
    rewrite (walk_file _ _ _ _ Ht). simpl.
    exists w. split; [reflexivity|]. left. split; [reflexivity|]. right. discriminate.
  - rewrite (walk_none _ _ _ Hentry). simpl.
    unfold symlink_to, alias_node. rewrite Hentry.
    destruct (can_symlink P (cursor_file alias)).
    + eexists. split; [reflexivity|]. right. auto.
    + unfold copy2. change link_limit with (1 + 39)%nat.
      rewrite (walk_more_fuel _ _ _ _ _ _ Hsrc).
      unfold write_file. rewrite (walk_none _ _ _ Hentry).
      eexists. split; [reflexivity|]. right. auto.
Qed.

Lemma link_aliases_direct (P : platform) (source target content : string)
    (aliases : list string) (w : world) :
  walk 1 (fs w) (cursor_file source) = Reached target content ->
  (forall n t, In n aliases -> fs w !! cursor_file n = Some (Link t) ->
     exists c, fs w !! t = Some (File c)) ->
  (forall n, In n aliases -> fs w !! cursor_file n = None ->
     can_symlink P (cursor_file n) = true ->
     fs w !! cursor_file source = Some (File content)) ->
  exists w',
    for_each (link_alias P source) aliases w = (Ok tt, w')
    /\ (forall n, In n aliases -> n <> source -> fs w !! cursor_file n = None ->
          fs w' !! cursor_file n = Some (alias_node P source content n)).
Proof.
  revert w. induction aliases as [|alias rest IH]; intros w Hsrc Hlinks Hcan; simpl.
  - exists w. split; [reflexivity | intros n []].
  - destruct (link_alias_direct P source target content alias w Hsrc)
      as (w1 & Hstep & Hcase).
    { intros t. apply Hlinks. simpl. auto. }
    assert (Hsub : fs w ⊆ fs w1) by (eapply link_alias_keeps; eauto).
    assert (Hsrc1 : walk 1 (fs w1) (cursor_file source) = Reached target content)
      by (eapply walk_subseteq; eauto).
    assert (Hlinks1 : forall n t, In n rest ->
              fs w1 !! cursor_file n = Some (Link t) ->
              exists c, fs w1 !! t = Some (File c)).
    { intros n t Hin. destruct Hcase as [[-> _]|(Hne & Hfree & Hfs)].
      - apply Hlinks. simpl. auto.
      - rewrite Hfs.
        destruct (decide (cursor_file alias = cursor_file n)) as [Heq|Hneq].
        + rewrite Heq, lookup_insert_eq. unfold alias_node.
          destruct (can_symlink P (cursor_file alias)) eqn:Hc; [|discriminate].
          intros Ht. inversion Ht; subst t. exists content.
          rewrite <- Heq. rewrite lookup_insert_ne.
          * apply (Hcan alias); [simpl; auto | exact Hfree | exact Hc].
          * intros H. apply cursor_file_inj in H. congruence.
        + rewrite lookup_insert_ne by exact Hneq. intros Hn.
          destruct (Hlinks n t (or_intror Hin) Hn) as [c Ht]. exists c.
          rewrite lookup_insert_ne; [exact Ht|]. congruence. }
    assert (Hcan1 : forall n, In n rest -> fs w1 !! cursor_file n = None ->
              can_symlink P (cursor_file n) = true ->
              fs w1 !! cursor_file source = Some (File content)).
    { intros n Hin Hnone Hc.
      eapply lookup_weaken; [|exact Hsub].
      apply (Hcan n); [simpl; auto | | exact Hc].
      destruct (fs w !! cursor_file n) as [entry|] eqn:E; [|reflexivity].
      rewrite (lookup_weaken _ _ _ _ E Hsub) in Hnone. discriminate. }
    destruct (IH w1 Hsrc1 Hlinks1 Hcan1) as (w' & Hrest & Hnew).
    exists w'. unfold bind. rewrite Hstep. split; [exact Hrest|].
    intros n Hin Hns Hnone.
    assert (Hkeep : fs w1 ⊆ fs w') by (eapply link_aliases_keep; eauto).
    destruct (String.eqb_spec n alias) as [->|Hna].
    + destruct Hcase as [[_ [Heq|Hsome]]|(_ & _ & Hfs)]; [congruence..|].
      eapply lookup_weaken; [|exact Hkeep].
      rewrite Hfs. apply lookup_insert_eq.
    + destruct Hin as [Heq|Hin]; [congruence|].
      apply Hnew; [exact Hin | exact Hns|].
      destruct Hcase as [[-> _]|(_ & _ & ->)]; [exact Hnone|].
      rewrite lookup_insert_ne; [exact Hnone|].
      intros H. apply cursor_file_inj in H. congruence.
Qed.

Lemma group_direct_exists (d : gmap string node) (group : list string) (name : string) :
  group_direct d group -> In name group ->
  path_exists d (cursor_file name)
  = match d !! cursor_file name with Some _ => true | None => false end.
Proof.
  intros Hdir Hin. unfold path_exists.
  destruct (d !! cursor_file name) as [[c|t]|] eqn:E.
  - rewrite (walk_file _ _ _ _ E). reflexivity.
  - destruct (Hdir name t Hin E) as [c Ht].
    unfold link_limit. rewrite (walk_link _ _ _ _ E), (walk_file _ _ _ _ Ht).
    reflexivity.
  - rewrite (walk_none _ _ _ E). reflexivity.
Qed.

Lemma group_direct_one_hop (d : gmap string node) (group : list string) (name : string) :
  group_direct d group -> In name group -> d !! cursor_file name <> None ->
  within_one_hop d (cursor_file name).
Proof.
  intros Hdir Hin Hsome. unfold within_one_hop.
  destruct (d !! cursor_file name) as [[c|t]|] eqn:E; [| |contradiction].
  - exists (cursor_file name), c. apply walk_file, E.
  - destruct (Hdir name t Hin E) as [c Ht]. exists t, c.
    rewrite (walk_link _ _ _ _ E). apply walk_file, Ht.
Qed.

(** A group whose links point straight at regular files, whose
    canonical name is not empty, and whose canonical config is a regular
    file unless no free name of the group can be made a link: the
    linker returns, fills the free names of the group, and leaves every
    name of the group within one link of a regular file. *)
Lemma link_group_direct (P : platform) (group : list string) (w : world)
    (source : string) :
  find_source (fs w) group = Some source ->
  source <> "" ->
  group_direct (fs w) group ->
  canonical_ready P (fs w) group source ->
  exists target content w',
    walk 1 (fs w) (cursor_file source) = Reached target content
    /\ link_group P group w = (Ok tt, w')
    /\ (forall alias, In alias group -> alias <> source ->
          path_exists (fs w) (cursor_file alias) = false ->
          fs w' !! cursor_file alias = Some (alias_node P source content alias)
          /\ (can_symlink P (cursor_file alias) = true ->
              fs w !! cursor_file source = Some (File content)))
    /\ (forall name, In name group -> within_one_hop (fs w') (cursor_file name)).
Proof.
  intros Hsource Hne Hdir Hready.
  assert (Hin_source : In source group) by (eapply find_source_In; eauto).
  destruct (find_source_first _ _ _ Hsource) as (_ & _ & _ & Hex & _).
  rewrite (group_direct_exists _ _ _ Hdir Hin_source) in Hex.
  assert (Hsome : fs w !! cursor_file source <> None)
    by (destruct (fs w !! cursor_file source); [discriminate|discriminate Hex]).
  destruct (group_direct_one_hop _ _ _ Hdir Hin_source Hsome)
    as (target & content & Hwalk).
  assert (Hcan : forall n, In n group -> fs w !! cursor_file n = None ->
            can_symlink P (cursor_file n) = true ->
            fs w !! cursor_file source = Some (File content)).
  { intros n Hin Hnone Hc. destruct Hready as [[c Hfile]|Hnever].
    - rewrite (walk_file _ _ _ _ Hfile) in Hwalk. congruence.
    - rewrite (Hnever n Hin Hnone) in Hc. discriminate. }
  destruct (link_aliases_direct P source target content group w Hwalk Hdir Hcan)
    as (w' & Hloop & Hnew).
  exists target, content, w'. split; [exact Hwalk|].
  split.
  { unfold link_group. unfold_M. rewrite Hsource.
    destruct (String.eqb_spec source "") as [Hempty|_]; [contradiction | exact Hloop]. }
  assert (Hkeep : fs w ⊆ fs w') by (eapply link_aliases_keep; eauto).
  assert (Hfree : forall alias, In alias group ->
            path_exists (fs w) (cursor_file alias) = false ->
            fs w !! cursor_file alias = None).
  { intros alias Hin Hno. rewrite (group_direct_exists _ _ _ Hdir Hin) in Hno.
    destruct (fs w !! cursor_file alias); [discriminate | reflexivity]. }
  split.
  - intros alias Hin Hns Hno. split.
    + apply Hnew; auto.
    + apply (Hcan alias); auto.
  - intros name Hin.
    destruct (fs w !! cursor_file name) as [entry|] eqn:E.
    + eapply within_one_hop_keeps; [exact Hkeep|].
      apply (group_direct_one_hop _ group); [exact Hdir | exact Hin | congruence].
    + assert (Hns : name <> source) by (intros ->; congruence).
      pose proof (Hnew name Hin Hns E) as Hnode. unfold alias_node in Hnode.
      unfold within_one_hop.
      destruct (can_symlink P (cursor_file name)) eqn:Hc.
      * exists (cursor_file source), content.
        rewrite (walk_link _ _ _ _ Hnode). apply walk_file.
        eapply lookup_weaken; [|exact Hkeep]. apply (Hcan name); auto.
      * exists (cursor_file name), content. apply walk_file, Hnode.
Qed.

(** C6, amended. For every alias group: the canonical name is the first
    name of the group whose config file exists; every entry of the
    directory is kept as it is, so no file is overwritten; a group with
    no existing config leaves the directory as it is and raises nothing.
    When every symbolic link among the config names of the group points
    straight at a regular file, and the canonical config is a regular
    file or no free name of the group can be made a link, the linker
    returns, every other name of the group without a config file gets a
    symbolic link to the canonical file, or a copy of that file where
    the link cannot be made, and every name of the group then resolves
    through at most one link to a regular config file. *)
Theorem alias_group_linked (P : platform) (group : list string) (w w' : world)
    (r : result unit) :
  link_group P group w = (r, w') ->
  fs w ⊆ fs w'
  /\ (find_source (fs w) group = None ->
      r = Ok tt /\ w' = w
      /\ forall name, In name group -> path_exists (fs w) (cursor_file name) = false)
  /\ (forall source, find_source (fs w) group = Some source ->
      (exists before after,
         group = (before ++ source :: after)%list
         /\ path_exists (fs w) (cursor_file source) = true
         /\ forall name, In name before -> path_exists (fs w) (cursor_file name) = false)
      /\ (source <> "" -> group_direct (fs w) group ->
          canonical_ready P (fs w) group source ->
          exists target content,
            walk 1 (fs w) (cursor_file source) = Reached target content
            /\ r = Ok tt
            /\ (forall alias, In alias group -> alias <> source ->
                  path_exists (fs w) (cursor_file alias) = false ->
                  fs w' !! cursor_file alias
                  = Some (alias_node P source content alias)
                  /\ (can_symlink P (cursor_file alias) = true ->
                      fs w !! cursor_file source = Some (File content)))
            /\ (forall name, In name group ->
                  within_one_hop (fs w') (cursor_file name)))).
Proof.
  intros Hrun. split; [eapply link_group_keeps; eauto|]. split.
  - intros Hnone. unfold link_group in Hrun. unfold_M. rewrite Hnone in Hrun.
    inversion Hrun; subst.
    split; [reflexivity|]. split; [reflexivity|]. apply find_source_none, Hnone.
  - intros source Hsource. split; [apply find_source_first, Hsource|].
    intros Hne Hdir Hready.
    destruct (link_group_direct P group w source Hsource Hne Hdir Hready)
      as (target & content & w2 & Hwalk & Hrun2 & Hnew & Hhop).
    rewrite Hrun2 in Hrun. inversion Hrun; subst r w2.
    exists target, content. auto.
Qed.

Lemma alias_group_linked_witness :
  let group := ["left_ptr"; "default"; "arrow"] in
  let run := link_group linking_platform group left_ptr_with_alias in
  find_source (fs left_ptr_with_alias) group = Some "left_ptr"
  /\ group_direct (fs left_ptr_with_alias) group
  /\ canonical_ready linking_platform (fs left_ptr_with_alias) group "left_ptr"
  /\ fst run = Ok tt
  /\ fs (snd run) !! "default.cursor" = Some (Link "left_ptr.cursor")
  /\ fs (snd run) !! "arrow.cursor" = Some (Link "left_ptr.cursor")
  /\ fs (snd run) !! "left_ptr.cursor" = Some (File "# left_ptr")
  /\ within_one_hop (fs (snd run)) "default.cursor"
  /\ within_one_hop (fs (snd run)) "arrow.cursor".
Proof.
  intros group run.
  assert (Hsource : find_source (fs left_ptr_with_alias) group = Some "left_ptr")
    by (vm_compute; reflexivity).
  assert (Hdir : group_direct (fs left_ptr_with_alias) group).
  { intros name target Hin. simpl in Hin.
    destruct Hin as [<-|[<-|[<-|[]]]]; vm_compute; try discriminate.
    intros H. inversion H. eauto. }
  assert (Hready : canonical_ready linking_platform (fs left_ptr_with_alias) group
                     "left_ptr").
  { left. exists "# left_ptr". vm_compute. reflexivity. }
  destruct (alias_group_linked linking_platform group left_ptr_with_alias
              (snd run) (fst run))
    as (Hkeep & _ & Hsome).
  { symmetry. apply surjective_pairing. }
  destruct (Hsome "left_ptr" Hsource) as (_ & Hlinked).
  destruct Hlinked as (target & content & Hwalk & Hok & Hnew & Hhop);
    [discriminate | exact Hdir | exact Hready|].
  destruct (Hnew "arrow") as [Harrow _];
    [simpl; auto | discriminate | vm_compute; reflexivity|].
  refine (conj Hsource (conj Hdir (conj Hready (conj Hok
            (conj _ (conj Harrow (conj _ (conj _ _)))))))).
  - eapply lookup_weaken; [|exact Hkeep]. vm_compute. reflexivity.
  - eapply lookup_weaken; [|exact Hkeep]. vm_compute. reflexivity.
  - apply (Hhop "default"). simpl. auto.
  - apply (Hhop "arrow"). simpl. auto.
Defined.

(** Without symbolic links the aliases are copies of the canonical file. *)
Example alias_copies :
  let run := link_group copying_platform ["left_ptr"; "default"; "arrow"] only_left_ptr in
  fst run = Ok tt
  /\ fs (snd run) !! "default.cursor" = Some (File "# left_ptr")
  /\ fs (snd run) !! "arrow.cursor" = Some (File "# left_ptr").
Proof. vm_compute. auto. Qed.

(** *** The whole linker on a directory without links *)

Lemma path_exists_same_entry (d d' : gmap string node) (name : string) :
  d' !! name = d !! name ->
  (forall target, d !! name <> Some (Link target)) ->
  path_exists d' name = path_exists d name.
Proof.
  intros Heq Hreg. unfold path_exists.
  destruct (d !! name) as [[c|t]|] eqn:E.
  - rewrite (walk_file _ _ _ _ Heq), (walk_file _ _ _ _ E). reflexivity.
  - destruct (Hreg t eq_refl).
  - rewrite (walk_none _ _ _ Heq), (walk_none _ _ _ E). reflexivity.
Qed.

Lemma find_source_same (d d' : gmap string node) (group : list string) :
  (forall name, In name group ->
     path_exists d' (cursor_file name) = path_exists d (cursor_file name)) ->
  find_source d' group = find_source d group.
Proof.
  induction group as [|cursor rest IH]; intros H; simpl; [reflexivity|].
  rewrite (H cursor) by (simpl; auto).
  rewrite IH by (intros n Hn; apply H; simpl; auto). reflexivity.
Qed.

Lemma distinct_app (l k : list string) :
  distinct (l ++ k) = true ->
  distinct k = true /\ forall x y, In x l -> In y k -> x <> y.
Proof.
  induction l as [|a l IH]; simpl; intros H.
  - split; [exact H | intros x y []].
  - apply andb_prop in H as [Ha Hd]. destruct (IH Hd) as [Hk Hne].
    split; [exact Hk|]. intros x y [<-|Hx] Hy.
    + intros ->. apply negb_true_iff in Ha.
      assert (Hin : In y (l ++ k)) by (apply in_or_app; auto).
      apply mem_In in Hin. congruence.
    + auto.
Qed.

(** The names of the alias groups are all different and none is empty. *)
Lemma alias_groups_distinct : distinct (concat alias_groups) = true.
Proof. vm_compute. reflexivity. Qed.

Lemma alias_groups_named : Py.mem "" (concat alias_groups) = false.
Proof. vm_compute. reflexivity. Qed.

Lemma link_groups_regular (P : platform) (groups : list (list string)) (w : world) :
  distinct (concat groups) = true ->
  Py.mem "" (concat groups) = false ->
  (forall group, In group groups -> group_regular (fs w) group) ->
  exists w',
    for_each (link_group P) groups w = (Ok tt, w')
    /\ (forall group, In group groups -> find_source (fs w) group <> None ->
          forall name, In name group -> within_one_hop (fs w') (cursor_file name)).
Proof.
  revert w. induction groups as [|group rest IH]; intros w Hdist Hnamed Hreg.
  - exists w. split; [reflexivity|]. intros group [].
  - simpl in Hdist, Hnamed.
    destruct (distinct_app _ _ Hdist) as [Hdist' Hapart].
    assert (Hnamed' : Py.mem "" (concat rest) = false).
    { apply mem_not_In. intros Hin.
      assert (Hin' : In "" (group ++ concat rest)) by (apply in_or_app; auto).
      apply mem_In in Hin'. congruence. }
    assert (Hstep : exists w1,
      link_group P group w = (Ok tt, w1)
      /\ (forall k, (forall n, In n group -> k <> cursor_file n) ->
            fs w1 !! k = fs w !! k)
      /\ (find_source (fs w) group <> None ->
          forall name, In name group -> within_one_hop (fs w1) (cursor_file name))).
    { destruct (find_source (fs w) group) as [source|] eqn:Hsource.
      - assert (Hne : source <> "").
        { intros ->. apply find_source_In in Hsource.
          assert (Hin' : In "" (group ++ concat rest)) by (apply in_or_app; auto).
          apply mem_In in Hin'. congruence. }
        destruct (link_group_regular P group w source Hsource Hne)
          as (content & w1 & _ & Hrun & _ & Hhop & Hframe).
        { apply Hreg. simpl. auto. }
        exists w1. auto.
      - exists w. split; [|split; [reflexivity | congruence]].
        unfold link_group. unfold_M. rewrite Hsource. reflexivity. }
    destruct Hstep as (w1 & Hrun & Hframe & Hhop).
    assert (Hentry : forall g name, In g rest -> In name g ->
              fs w1 !! cursor_file name = fs w !! cursor_file name).
    { intros g name Hg Hname. apply Hframe. intros n Hn Heq.
      apply cursor_file_inj in Heq. subst n.
      apply (Hapart name name Hn); [|reflexivity].
      apply in_concat. eauto. }
    destruct (IH w1 Hdist' Hnamed') as (w' & Hrest & Hhops).
    { intros g Hg name target Hname. rewrite (Hentry g name Hg Hname).
      apply (Hreg g); simpl; auto. }
    exists w'. simpl. unfold bind. rewrite Hrun. split; [exact Hrest|].
    intros g [<-|Hg] Hsource name Hname.
    + eapply within_one_hop_keeps; [|apply Hhop; assumption].
      eapply link_groups_keep; eauto.
    + apply (Hhops g Hg); [|exact Hname].
      rewrite (find_source_same (fs w) (fs w1) g); [exact Hsource|].
      intros n Hn. apply path_exists_same_entry; [apply (Hentry g n Hg Hn)|].
      intros target. apply (Hreg g); simpl; auto.
Qed.

(** On a directory without symbolic links the whole Alias Linker
    returns, keeps every entry, and leaves every name of every group that
    had a config within one link of a regular config file. *)
Lemma create_fullsize_aliases_regular (P : platform) (w : world) :
  regular_only (fs w) ->
  exists w',
    create_fullsize_aliases P w = (Ok tt, w')
    /\ fs w ⊆ fs w'
    /\ (forall group, In group alias_groups -> find_source (fs w) group <> None ->
          forall name, In name group -> within_one_hop (fs w') (cursor_file name)).
Proof.
  intros Hreg.
  destruct (link_groups_regular P alias_groups w alias_groups_distinct alias_groups_named)
    as (w' & Hrun & Hhops).
  { intros group _ name target _. apply Hreg. }
  exists w'. split; [exact Hrun|]. split; [|exact Hhops].
  eapply create_fullsize_aliases_keeps. exact Hrun.
Qed.

(** ** Cursor Compiler Driver *)

Section Driver.

Variable P : platform.
Variable cursors_dir : dir_path.

(** The first invocation does not find the program: the loop ends
    there, with the counters as they were. *)
Lemma compile_files_not_found (total i : nat) (config_file : string)
    (rest : list string) (successful failed : Z) (w : world) :
  subprocess_run P (fs w) ["xcursorgen"; config_file; stem config_file] = ProgramNotFound ->
  compile_files P cursors_dir total i (config_file :: rest) successful failed w
  = (Ok (successful, failed),
     {| fs := fs w; has_dir := has_dir w;
        stdout := stdout w ++ [MsgXcursorgenNotFound];
        cwd := entered cursors_dir (cwd w);
        spawned := spawned w ++ [["xcursorgen"; config_file; stem config_file]] |}).
Proof.
  intros Hrun. simpl. unfold_M. unfold chdir, spawn, modify. simpl.
  rewrite Hrun. reflexivity.
Qed.

(** The time limit passes: a failure is counted, the working directory
    is put back, and the loop goes on with the next file. *)
Lemma compile_files_timeout (total i : nat) (config_file : string)
    (rest : list string) (successful failed : Z) (w : world) (after : gmap string node) :
  subprocess_run P (fs w) ["xcursorgen"; config_file; stem config_file]
  = TimeoutExpired after ->
  compile_files P cursors_dir total i (config_file :: rest) successful failed w
  = compile_files P cursors_dir total (S i) rest successful (failed + 1)
      {| fs := after; has_dir := has_dir w;
         stdout := stdout w ++ [MsgTimeout i total (stem config_file)];
         cwd := cwd w;
         spawned := spawned w ++ [["xcursorgen"; config_file; stem config_file]] |}.
Proof.
  intros Hrun. simpl. unfold_M. unfold chdir, spawn, modify. simpl.
  rewrite Hrun. reflexivity.
Qed.

(** Another exception: as for the time limit. *)
Lemma compile_files_error (total i : nat) (config_file : string)
    (rest : list string) (successful failed : Z) (w : world) (e : exn)
    (after : gmap string node) :
  subprocess_run P (fs w) ["xcursorgen"; config_file; stem config_file]
  = RunError e after ->
  compile_files P cursors_dir total i (config_file :: rest) successful failed w
  = compile_files P cursors_dir total (S i) rest successful (failed + 1)
      {| fs := after; has_dir := has_dir w;
         stdout := stdout w ++ [MsgError i total (stem config_file) e];
         cwd := cwd w;
         spawned := spawned w ++ [["xcursorgen"; config_file; stem config_file]] |}.
Proof.
  intros Hrun. simpl. unfold_M. unfold chdir, spawn, modify. simpl.
  rewrite Hrun. reflexivity.
Qed.

(** The process ran to its end: the working directory is put back. *)
Lemma compile_files_completed (total i : nat) (config_file : string)
    (rest : list string) (successful failed : Z) (w : world) (returncode : Z)
    (stderr : string) (after : gmap string node) :
  subprocess_run P (fs w) ["xcursorgen"; config_file; stem config_file]
  = Completed returncode stderr after ->
  let w1 message :=
    {| fs := after; has_dir := has_dir w; stdout := stdout w ++ [message];
       cwd := cwd w;
       spawned := spawned w ++ [["xcursorgen"; config_file; stem config_file]] |} in
  compile_files P cursors_dir total i (config_file :: rest) successful failed w
  = if (returncode =? 0)%Z && path_exists after (stem config_file)
    then compile_files P cursors_dir total (S i) rest (successful + 1) failed
           (w1 (MsgCompiled i total (stem config_file) (st_size after (stem config_file))))
    else compile_files P cursors_dir total (S i) rest successful (failed + 1)
           (w1 (MsgCompileFailed i total (stem config_file) stderr)).
Proof.
  intros Hrun. simpl. unfold_M. unfold chdir, spawn, modify. simpl.
  rewrite Hrun. simpl.
  destruct ((returncode =? 0)%Z && path_exists after (stem config_file)); reflexivity.
Qed.

End Driver.

(** The driver, once the cursors directory is there: the two opening
    reports, the loop, the closing report. *)
Lemma generate_fullsize_cursors_unfold (P : platform) (theme_dir : dir_path) (w : world) :
  has_dir w = true ->
  generate_fullsize_cursors P theme_dir w =
  match compile_files P (cursors_dir_of theme_dir) (length (config_files (fs w))) 1
          (config_files (fs w)) 0 0
          {| fs := fs w; has_dir := has_dir w;
             stdout := (stdout w ++ [MsgGenerating]) ++ [MsgMayTakeAWhile];
             cwd := cwd w; spawned := spawned w |} with
  | (Ok counts, w1) =>
      (print (MsgComplete (fst counts) (snd counts)) ;;
       if (fst counts >? 0)%Z then
         w' <- get ;; print (MsgTotalSize (total_size (fs w')))
       else ret tt) w1
  | (Raise e, w1) => (Raise e, w1)
  end.
Proof.
  intros Hdir.
  assert (Hgo : negb (has_dir w) = false) by (rewrite Hdir; reflexivity).
  unfold generate_fullsize_cursors.
  unfold bind at 1. unfold get at 1. rewrite Hgo. reflexivity.
Qed.

Example config_files_two_configs :
  config_files (fs two_configs) = ["hand2.cursor"; "left_ptr.cursor"].
Proof. vm_compute. reflexivity. Qed.

(** C8. When the [xcursorgen] program is absent, the driver returns
    after the first attempted invocation: that invocation is the only
    one, the report of the missing program is printed, the closing
    report counts no success and no failure, and the cursors directory
    is as it was. *)
Theorem missing_compiler_aborts (P : platform) (theme_dir : dir_path) (w : world) :
  (forall d args, subprocess_run P d args = ProgramNotFound) ->
  has_dir w = true ->
  exists w',
    generate_fullsize_cursors P theme_dir w = (Ok tt, w')
    /\ fs w' = fs w
    /\ match config_files (fs w) with
       | [] =>
           spawned w' = spawned w
           /\ stdout w' = (stdout w ++ [MsgGenerating; MsgMayTakeAWhile; MsgComplete 0 0])%list
       | first :: _ =>
           spawned w' = (spawned w ++ [["xcursorgen"; first; stem first]])%list
           /\ stdout w' = (stdout w ++ [MsgGenerating; MsgMayTakeAWhile;
                                        MsgXcursorgenNotFound; MsgComplete 0 0])%list
       end.
Proof.
  intros Habsent Hdir.
  rewrite generate_fullsize_cursors_unfold by exact Hdir.
  destruct (config_files (fs w)) as [|first rest] eqn:Hfiles.
  - simpl. unfold_M. simpl. eexists. split; [reflexivity|]. simpl.
    rewrite <- !app_assoc. auto.
  - rewrite compile_files_not_found by apply Habsent.
    unfold_M. simpl. eexists. split; [reflexivity|]. simpl.
    rewrite <- !app_assoc. auto.
Qed.

Lemma missing_compiler_aborts_witness :
  exists w',
    generate_fullsize_cursors linking_platform (DirPath false ["fullsize_pro_cursors"])
      two_configs = (Ok tt, w')
    /\ fs w' = fs two_configs
    /\ spawned w' = [["xcursorgen"; "hand2.cursor"; "hand2"]]
    /\ stdout w' = [MsgGenerating; MsgMayTakeAWhile; MsgXcursorgenNotFound; MsgComplete 0 0].
Proof.
  destruct (missing_compiler_aborts linking_platform (DirPath false ["fullsize_pro_cursors"])
              two_configs (fun _ _ => eq_refl) eq_refl)
    as (w' & Hrun & Hfs & Hrest).
  rewrite config_files_two_configs in Hrest.
  exists w'. exact (conj Hrun (conj Hfs Hrest)).
Defined.

(** C10. In the loop of the driver: when the program is not found, the
    loop ends with the working directory inside the cursors directory;
    when the time limit passes or another exception is raised, the
    working directory is put back before the loop goes on. For the whole
    driver: when the first invocation does not find the program, it
    returns with the working directory inside the cursors directory. *)
Theorem missing_compiler_leaves_cwd (P : platform) (w : world)
    (config_file : string) (rest : list string) :
  let args := ["xcursorgen"; config_file; stem config_file] in
  (forall cursors_dir total i successful failed,
     subprocess_run P (fs w) args = ProgramNotFound ->
     exists w',
       compile_files P cursors_dir total i (config_file :: rest) successful failed w
       = (Ok (successful, failed), w')
       /\ cwd w' = entered cursors_dir (cwd w))
  /\ (forall cursors_dir total i successful failed after,
        subprocess_run P (fs w) args = TimeoutExpired after ->
        exists w1,
          cwd w1 = cwd w
          /\ compile_files P cursors_dir total i (config_file :: rest) successful failed w
             = compile_files P cursors_dir total (S i) rest successful (failed + 1) w1)
  /\ (forall cursors_dir total i successful failed e after,
        subprocess_run P (fs w) args = RunError e after ->
        exists w1,
          cwd w1 = cwd w
          /\ compile_files P cursors_dir total i (config_file :: rest) successful failed w
             = compile_files P cursors_dir total (S i) rest successful (failed + 1) w1)
  /\ (forall theme_dir,
        has_dir w = true ->
        config_files (fs w) = config_file :: rest ->
        subprocess_run P (fs w) args = ProgramNotFound ->
        exists w',
          generate_fullsize_cursors P theme_dir w = (Ok tt, w')
          /\ cwd w' = entered (cursors_dir_of theme_dir) (cwd w)).
Proof.
  cbv zeta. split; [|split; [|split]].
  - intros cursors_dir total i successful failed Hrun.
    rewrite compile_files_not_found by exact Hrun.
    eexists. split; reflexivity.
  - intros cursors_dir total i successful failed after Hrun.
    rewrite (compile_files_timeout _ _ _ _ _ _ _ _ _ _ Hrun).
    eexists. split; [|reflexivity]. reflexivity.
  - intros cursors_dir total i successful failed e after Hrun.
    rewrite (compile_files_error _ _ _ _ _ _ _ _ _ _ _ Hrun).
    eexists. split; [|reflexivity]. reflexivity.
  - intros theme_dir Hdir Hfiles Hrun.
    rewrite generate_fullsize_cursors_unfold by exact Hdir.
    rewrite Hfiles.
    rewrite compile_files_not_found by exact Hrun.
    unfold_M. simpl. eexists. split; reflexivity.
Qed.

Lemma missing_compiler_leaves_cwd_witness :
  (exists w',
     generate_fullsize_cursors linking_platform (DirPath false ["fullsize_pro_cursors"])
       two_configs = (Ok tt, w')
     /\ cwd w' = ["home"; "fullsize_pro_cursors"; "cursors"])
  /\ (exists w1,
        cwd w1 = ["home"]
        /\ compile_files slow_platform (DirPath false ["fullsize_pro_cursors"; "cursors"])
             2 1 ["hand2.cursor"; "left_ptr.cursor"] 0 0 two_configs
           = compile_files slow_platform (DirPath false ["fullsize_pro_cursors"; "cursors"])
               2 2 ["left_ptr.cursor"] 0 1 w1).
Proof.
  destruct (missing_compiler_leaves_cwd linking_platform two_configs
              "hand2.cursor" ["left_ptr.cursor"]) as (_ & _ & _ & Hwhole).
  destruct (missing_compiler_leaves_cwd slow_platform two_configs
              "hand2.cursor" ["left_ptr.cursor"]) as (_ & Htimeout & _).
  split.
  - apply (Hwhole (DirPath false ["fullsize_pro_cursors"]) eq_refl
             config_files_two_configs eq_refl).
  - apply (Htimeout (DirPath false ["fullsize_pro_cursors"; "cursors"]) 2%nat 1%nat 0 0
             (fs two_configs) eq_refl).
Defined.

(** * Further properties *)

(** ** Directories without symbolic links *)

Lemma walk_regular (n : nat) (d : gmap string node) (name : string) :
  regular_only d ->
  walk n d name = match d !! name with
                  | Some (File content) => Reached name content
                  | _ => Missing name
                  end.
Proof.
  intros Hreg. destruct (d !! name) as [[c|t]|] eqn:E.
  - apply walk_file, E.
  - destruct (Hreg name t E).
  - apply walk_none, E.
Qed.

Lemma write_file_regular (name content : string) (w : world) :
  regular_only (fs w) ->
  write_file name content w = (Ok tt, set_fs (<[name := File content]> (fs w)) w).
Proof.
  intros Hreg. unfold write_file. rewrite (walk_regular _ _ _ Hreg).
  destruct (fs w !! name) as [[c|t]|]; reflexivity.
Qed.

Lemma regular_only_insert (d : gmap string node) (name content : string) :
  regular_only d -> regular_only (<[name := File content]> d).
Proof.
  intros Hreg k t. destruct (decide (name = k)) as [->|Hne].
  - rewrite lookup_insert_eq. discriminate.
  - rewrite lookup_insert_ne by exact Hne. apply Hreg.
Qed.

Lemma regular_only_extends (d d' : gmap string node) :
  extends d d' -> regular_only d -> regular_only d'.
Proof. intros [Hl _] Hreg k t H. apply Hl in H. exact (Hreg k t H). Qed.

Lemma path_exists_regular (d : gmap string node) (name : string) :
  regular_only d ->
  path_exists d name = match d !! name with Some _ => true | None => false end.
Proof.
  intros Hreg. unfold path_exists. rewrite (walk_regular _ _ _ Hreg).
  destruct (d !! name) as [[c|t]|] eqn:E; try reflexivity.
  destruct (Hreg name t E).
Qed.

(** ** Scaled file names *)

Lemma no_x_uint (d : Decimal.uint) : no_x (NilEmpty.string_of_uint d) = true.
Proof. induction d; simpl; auto. Qed.

Lemma no_x_str (n : Z) : no_x (Py.str n) = true.
Proof.
  unfold Py.str, NilZero.string_of_int.
  destruct (Z.to_int n) as [d|d]; unfold NilZero.string_of_uint;
    destruct d; simpl; auto using no_x_uint.
Qed.

(** Two texts without [x], each followed by an [x]: the texts are equal. *)
Lemma before_x (a b r r' : string) :
  no_x a = true -> no_x b = true ->
  a +:+ String "x" r = b +:+ String "x" r' -> a = b.
Proof.
  revert b. induction a as [|c a IH]; intros [|c' b] Ha Hb H.
  - reflexivity.
  - rewrite app_cons in H. inversion H; subst c'. simpl in Hb. discriminate Hb.
  - rewrite app_cons in H. inversion H; subst c. simpl in Ha. discriminate Ha.
  - rewrite !app_cons in H. inversion H; subst c'.
    simpl in Ha, Hb. apply andb_prop in Ha as [_ Ha]. apply andb_prop in Hb as [_ Hb].
    f_equal. eapply IH; eauto.
Qed.

(** The scaled file names of one cursor are different for different
    sizes. *)
Lemma scaled_filename_inj (cursor_name : string) (size size' : Z) :
  scaled_filename cursor_name size = scaled_filename cursor_name size' -> size = size'.
Proof.
  unfold scaled_filename. intros H.
  apply (inj (String.append cursor_name)) in H.
  change ("_" +:+ ?s) with (String "_" s) in H.
  inversion H as [H'].
  change ("x" +:+ ?s) with (String "x" s) in H'.
  apply before_x in H'; auto using no_x_str.
  apply str_inj, H'.
Qed.

Lemma last_ascii_app (s t : string) :
  t <> "" -> last_ascii (s +:+ t) = last_ascii t.
Proof.
  intros Ht. induction s as [|c s IH]; [reflexivity|].
  rewrite app_cons. simpl. rewrite IH.
  destruct (s +:+ t) eqn:E; [|reflexivity].
  destruct s; [contradiction|discriminate E].
Qed.

(** A config file name is never a scaled image name. *)
Lemma cursor_file_not_scaled (name cursor_name : string) (size : Z) :
  cursor_file name <> scaled_filename cursor_name size.
Proof.
  intros H. apply (f_equal last_ascii) in H.
  unfold cursor_file, scaled_filename in H.
  rewrite <- !app_assoc_str in H.
  rewrite !last_ascii_app in H by discriminate.
  discriminate H.
Qed.

(** ** Image Scaler: when the image library does not raise *)

Lemma scale_sizes_regular (I : imaging) (img : picture I) (cursor_name : string)
    (todo : list Z) (m : gmap Z string) (w : world) :
  regular_only (fs w) ->
  Z.max (picture_width I img) (picture_height I img) <> 0 ->
  (forall size, In size todo -> resize_png I img size <> None) ->
  exists m' w',
    scale_sizes I img cursor_name todo (m, w) = (Ok tt, (m', w'))
    /\ regular_only (fs w')
    /\ stdout w' = stdout w
    /\ (forall size, In size todo -> m' !! size = Some (scaled_filename cursor_name size))
    /\ (forall k, ~ In k todo -> m' !! k = m !! k)
    /\ (forall size png, In size todo -> resize_png I img size = Some png ->
          fs w' !! scaled_filename cursor_name size = Some (File png))
    /\ (forall k, (forall size, In size todo -> k <> scaled_filename cursor_name size) ->
          fs w' !! k = fs w !! k).
Proof.
  intros Hreg Hside. revert m w Hreg.
  induction todo as [|size rest IH]; intros m w Hreg Hok.
  - exists m, w. split; [reflexivity|]. split; [exact Hreg|]. split; [reflexivity|].
    split; [intros s []|]. split; [reflexivity|]. split; [intros s png []|reflexivity].
  - simpl. unfold_M.
    destruct (Z.eqb_spec (Z.max (picture_width I img) (picture_height I img)) 0)
      as [Hz|_]; [contradiction|].
    destruct (resize_png I img size) as [png|] eqn:Hpng;
      [|destruct (Hok size (or_introl eq_refl) Hpng)].
    simpl. rewrite write_file_regular by exact Hreg. simpl.
    destruct (IH (<[size := scaled_filename cursor_name size]> m)
                 (set_fs (<[scaled_filename cursor_name size := File png]> (fs w)) w))
      as (m' & w' & Hrun & Hreg' & Hout & Hmap & Hkeep & Hfiles & Hframe).
    { simpl. apply regular_only_insert, Hreg. }
    { intros s Hs. apply Hok. simpl. auto. }
    exists m', w'. split; [exact Hrun|]. split; [exact Hreg'|]. split; [exact Hout|].
    split; [|split; [|split]].
    + intros s [<-|Hs]; [|auto].
      destruct (in_dec Z.eq_dec size rest) as [Hin|Hnin]; [auto|].
      rewrite Hkeep by exact Hnin. apply lookup_insert_eq.
    + intros k Hk. rewrite Hkeep by (simpl in Hk; tauto).
      apply lookup_insert_ne. simpl in Hk. tauto.
    + intros s png' [<-|Hs] Hpng'; [|eauto].
      destruct (in_dec Z.eq_dec size rest) as [Hin|Hnin]; [eauto|].
      rewrite Hframe.
      * simpl. rewrite lookup_insert_eq. congruence.
      * intros s' Hs' Heq. apply scaled_filename_inj in Heq. congruence.
    + intros k Hk. rewrite Hframe by (intros s Hs; apply Hk; simpl; auto).
      simpl. apply lookup_insert_ne. intros Heq. apply (Hk size); simpl; auto.
Qed.

(** The scaler loop over a list in two parts. *)
Lemma scale_sizes_app (I : imaging) (img : picture I) (cursor_name : string)
    (first rest : list Z) (s : gmap Z string * world) :
  scale_sizes I img cursor_name (first ++ rest) s =
  match scale_sizes I img cursor_name first s with
  | (Ok _, s') => scale_sizes I img cursor_name rest s'
  | (Raise e, s') => (Raise e, s')
  end.
Proof.
  revert s. induction first as [|size first IH]; intros s; [reflexivity|].
  simpl. unfold_M.
  destruct (Z.max (picture_width I img) (picture_height I img) =? 0)%Z; [reflexivity|].
  destruct (resize_png I img size) as [png|]; [|reflexivity].
  simpl.
  destruct (write_file (scaled_filename cursor_name size) png (snd s)) as [[[]|e] w1];
    [|reflexivity].
  apply IH.
Qed.

Lemma create_scaled_images_regular (I : imaging) (original_image : src_image) (img : picture I)
    (cursor_name : string) (sizes : list Z) (w : world) :
  regular_only (fs w) ->
  image_open I original_image = Some img ->
  Z.max (picture_width I img) (picture_height I img) <> 0 ->
  (forall size, In size sizes -> resize_png I img size <> None) ->
  exists (scaled_images : gmap Z string) (w' : world),
    create_scaled_images I original_image cursor_name sizes w = (Ok scaled_images, w')
    /\ stdout w' = stdout w
    /\ (forall size, In size sizes ->
          scaled_images !! size = Some (scaled_filename cursor_name size))
    /\ (forall size, ~ In size sizes -> scaled_images !! size = None)
    /\ (forall size png, In size sizes -> resize_png I img size = Some png ->
          read_file (fs w') (scaled_filename cursor_name size) = Some png)
    /\ (forall name, (forall size, In size sizes -> name <> scaled_filename cursor_name size) ->
          fs w' !! name = fs w !! name)
    /\ regular_only (fs w').
Proof.
  intros Hreg Hopen Hside Hok.
  destruct (scale_sizes_regular I img cursor_name sizes ∅ w Hreg Hside Hok)
    as (m' & w' & Hrun & Hreg' & Hout & Hmap & Hkeep & Hfiles & Hframe).
  exists m', w'. unfold create_scaled_images. rewrite Hopen, Hrun.
  split; [reflexivity|]. split; [exact Hout|]. split; [exact Hmap|].
  split; [intros k Hk; rewrite (Hkeep k Hk); apply lookup_empty|].
  split; [|split; [exact Hframe | exact Hreg']].
  intros size png Hin Hpng. unfold read_file.
  rewrite (walk_file _ _ _ _ (Hfiles size png Hin Hpng)). reflexivity.
Qed.

(** X1. When the library opens the image and resizes it to every requested
    size, in a directory without links: the scaler prints nothing, its
    mapping sends each requested size, and nothing else, to the scaled
    file name of that size, and each scaled file holds the picture of its
    own size; no other entry of the directory changes. *)
Theorem scaler_success (I : imaging) (original_image : src_image) (img : picture I)
    (cursor_name : string) (sizes : list Z) (w : world) :
  regular_only (fs w) ->
  image_open I original_image = Some img ->
  Z.max (picture_width I img) (picture_height I img) <> 0 ->
  (forall size, In size sizes -> resize_png I img size <> None) ->
  exists (scaled_images : gmap Z string) (w' : world),
    create_scaled_images I original_image cursor_name sizes w = (Ok scaled_images, w')
    /\ stdout w' = stdout w
    /\ (forall size, In size sizes ->
          scaled_images !! size = Some (scaled_filename cursor_name size))
    /\ (forall size, ~ In size sizes -> scaled_images !! size = None)
    /\ (forall size png, In size sizes -> resize_png I img size = Some png ->
          read_file (fs w') (scaled_filename cursor_name size) = Some png)
    /\ (forall name, (forall size, In size sizes -> name <> scaled_filename cursor_name size) ->
          fs w' !! name = fs w !! name)
    /\ regular_only (fs w').
Proof. apply create_scaled_images_regular. Qed.

Lemma scaler_success_witness :
  exists (scaled_images : gmap Z string) (w' : world),
    create_scaled_images sample_imaging (SrcImage "pointer.png" "pointer.png")
      "left_ptr" [16; 32] empty_world = (Ok scaled_images, w')
    /\ scaled_images !! 32 = Some "left_ptr_32x32.png"
    /\ read_file (fs w') "left_ptr_16x16.png" = Some "png".
Proof.
  destruct (scaler_success sample_imaging (SrcImage "pointer.png" "pointer.png") tt
              "left_ptr" [16; 32] empty_world)
    as (m & w' & Hrun & _ & Hmap & _ & Hfiles & _).
  - intros name target. vm_compute. discriminate.
  - reflexivity.
  - vm_compute. discriminate.
  - intros size _. vm_compute. discriminate.
  - exists m, w'. split; [exact Hrun|]. split.
    + apply (Hmap 32). simpl. auto.
    + apply (Hfiles 16 "png"); [simpl; auto | reflexivity].
Defined.

(** X2. When the library fails at one size after it has scaled others, in a
    directory without links: the mapping names the original file for
    every requested size, one warning is printed, and the pictures
    already scaled stay in the directory. *)
Theorem scaler_leaves_partial_files (I : imaging) (original_image : src_image)
    (img : picture I) (cursor_name : string) (done : list Z) (bad : Z)
    (todo : list Z) (w : world) :
  regular_only (fs w) ->
  image_open I original_image = Some img ->
  Z.max (picture_width I img) (picture_height I img) <> 0 ->
  (forall size, In size done -> resize_png I img size <> None) ->
  resize_png I img bad = None ->
  exists (scaled_images : gmap Z string) (w' : world),
    create_scaled_images I original_image cursor_name (done ++ bad :: todo) w
    = (Ok scaled_images, w')
    /\ stdout w' = (stdout w ++ [MsgScaleWarning (image_path original_image) ImageError])%list
    /\ (forall size, In size (done ++ bad :: todo) ->
          scaled_images !! size = Some (image_name original_image))
    /\ (forall size png, In size done -> resize_png I img size = Some png ->
          read_file (fs w') (scaled_filename cursor_name size) = Some png).
Proof.
  intros Hreg Hopen Hside Hok Hbad.
  destruct (scale_sizes_regular I img cursor_name done ∅ w Hreg Hside Hok)
    as (m1 & w1 & Hrun & Hreg1 & Hout & _ & _ & Hfiles & _).
  unfold create_scaled_images. rewrite Hopen, scale_sizes_app, Hrun.
  simpl. unfold_M.
  destruct (Z.eqb_spec (Z.max (picture_width I img) (picture_height I img)) 0)
    as [Hz|_]; [contradiction|].
  rewrite Hbad. simpl.
  eexists _, _. split; [reflexivity|]. simpl. split; [rewrite Hout; reflexivity|].
  split.
  - intros size Hin. apply use_original_lookup, Hin.
  - intros size png Hin Hpng. unfold read_file.
    rewrite (walk_file _ _ _ _ (Hfiles size png Hin Hpng)). reflexivity.
Qed.

(** An image library that cannot make pictures of side 32 or more. *)
Lemma scaler_leaves_partial_files_witness :
  let small_only :=
    {| picture := unit; image_open := fun _ => Some tt;
       picture_width := fun _ => 32; picture_height := fun _ => 32;
       resize_png := fun _ size => if (size <? 32)%Z then Some "png" else None |} in
  exists (scaled_images : gmap Z string) (w' : world),
    create_scaled_images small_only (SrcImage "pointer.png" "pointer.png")
      "left_ptr" [16; 32; 48] empty_world = (Ok scaled_images, w')
    /\ scaled_images !! 16 = Some "pointer.png"
    /\ read_file (fs w') "left_ptr_16x16.png" = Some "png".
Proof.
  intros small_only.
  destruct (scaler_leaves_partial_files small_only (SrcImage "pointer.png" "pointer.png") tt
              "left_ptr" [16] 32 [48] empty_world)
    as (m & w' & Hrun & _ & Hmap & Hfiles).
  - intros name target. vm_compute. discriminate.
  - reflexivity.
  - vm_compute. discriminate.
  - intros size [<-|[]]. vm_compute. discriminate.
  - reflexivity.
  - exists m, w'. split; [exact Hrun|]. split.
    + apply (Hmap 16). simpl. auto.
    + apply (Hfiles 16 "png"); [simpl; auto | reflexivity].
Defined.

(** ** Cursor Config Writer in a directory without links *)

Lemma scale_sizes_frame (I : imaging) (img : picture I) (cursor_name : string)
    (todo : list Z) (m m' : gmap Z string) (w w' : world) (r : result unit) :
  regular_only (fs w) ->
  scale_sizes I img cursor_name todo (m, w) = (r, (m', w')) ->
  regular_only (fs w')
  /\ (forall k, (forall size, k <> scaled_filename cursor_name size) ->
        fs w' !! k = fs w !! k).
Proof.
  revert m w. induction todo as [|size rest IH]; intros m w Hreg Hrun.
  - inversion Hrun; subst. auto.
  - simpl in Hrun. unfold_M.
    destruct (Z.max (picture_width I img) (picture_height I img) =? 0)%Z.
    { inversion Hrun; subst. auto. }
    destruct (resize_png I img size) as [png|].
    2:{ inversion Hrun; subst. auto. }
    simpl in Hrun. rewrite write_file_regular in Hrun by exact Hreg. simpl in Hrun.
    apply IH in Hrun as [Hreg' Hframe]; [|simpl; apply regular_only_insert, Hreg].
    split; [exact Hreg'|].
    intros k Hk. rewrite Hframe by exact Hk. simpl.
    apply lookup_insert_ne. intros Heq. exact (Hk size (eq_sym Heq)).
Qed.

Lemma create_scaled_images_frame (I : imaging) (original_image : src_image)
    (cursor_name : string) (sizes : list Z) (m : gmap Z string) (w w' : world) :
  regular_only (fs w) ->
  create_scaled_images I original_image cursor_name sizes w = (Ok m, w') ->
  regular_only (fs w')
  /\ (forall k, (forall size, k <> scaled_filename cursor_name size) ->
        fs w' !! k = fs w !! k).
Proof.
  unfold create_scaled_images. intros Hreg Hrun.
  destruct (image_open I original_image) as [img|].
  - destruct (scale_sizes I img cursor_name sizes (∅, w)) as [r [m0 w0]] eqn:Hloop.
    apply scale_sizes_frame in Hloop as [Hreg0 Hframe]; [|exact Hreg].
    destruct r as [[]|e]; unfold_M; simpl in Hrun; inversion Hrun; subst; auto.
  - unfold_M. simpl in Hrun. inversion Hrun; subst. auto.
Qed.

(** In a directory without links the writer always returns; it writes
    the config under the config name of the cursor and touches, besides
    it, only scaled image names of that cursor. *)
Lemma config_writer_regular (I : imaging) (cursor_name : string)
    (original_image : src_image) (sizes : list Z) (w : world) :
  regular_only (fs w) ->
  exists (scaled_images : gmap Z string) (w1 w' : world),
    create_scaled_images I original_image cursor_name sizes w = (Ok scaled_images, w1)
    /\ create_optimized_multisize_config I cursor_name original_image sizes w = (Ok tt, w')
    /\ fs w' = <[cursor_file cursor_name :=
                   File (optimized_content cursor_name (image_name original_image)
                           scaled_images sizes)]> (fs w1)
    /\ stdout w' = (stdout w1 ++ [MsgOptimized cursor_name sizes])%list
    /\ regular_only (fs w')
    /\ (forall k, k <> cursor_file cursor_name ->
          (forall size, k <> scaled_filename cursor_name size) ->
          fs w' !! k = fs w !! k).
Proof.
  intros Hreg.
  destruct (create_scaled_images_returns I original_image cursor_name sizes w)
    as (m & w1 & Hscale & _ & _).
  destruct (create_scaled_images_frame _ _ _ _ _ _ _ Hreg Hscale) as [Hreg1 Hframe].
  exists m, w1. eexists. split; [exact Hscale|].
  unfold create_optimized_multisize_config, bind. rewrite Hscale.
  rewrite write_file_regular by exact Hreg1. unfold_M. simpl.
  split; [reflexivity|]. simpl. split; [reflexivity|]. split; [reflexivity|].
  split; [apply regular_only_insert, Hreg1|].
  intros k Hk Hpng. rewrite lookup_insert_ne by congruence. apply Hframe, Hpng.
Qed.

(** X3. When the library opens the image and resizes it to every requested
    size, in a directory without links: the config written for the
    cursor names, for each size, the scaled file of that size, and every
    file it names is in the directory. *)
Theorem config_names_existing_images (I : imaging) (original_image : src_image)
    (img : picture I) (cursor_name : string) (sizes : list Z) (w : world) :
  regular_only (fs w) ->
  image_open I original_image = Some img ->
  Z.max (picture_width I img) (picture_height I img) <> 0 ->
  (forall size, In size sizes -> resize_png I img size <> None) ->
  exists w',
    create_optimized_multisize_config I cursor_name original_image sizes w = (Ok tt, w')
    /\ read_file (fs w') (cursor_file cursor_name)
       = Some (content_with (scaled_filename cursor_name) cursor_name sizes)
    /\ (forall size, In size sizes ->
          path_exists (fs w') (scaled_filename cursor_name size) = true)
    /\ stdout w' = (stdout w ++ [MsgOptimized cursor_name sizes])%list.
Proof.
  intros Hreg Hopen Hside Hok.
  destruct (create_scaled_images_regular I original_image img cursor_name sizes w
              Hreg Hopen Hside Hok)
    as (m & w1 & Hscale & Hout & Hmap & _ & Hfiles & _ & Hreg1).
  destruct (config_writer_regular I cursor_name original_image sizes w Hreg)
    as (m' & w1' & w' & Hscale' & Hrun & Hfs & Hout' & Hreg' & _).
  rewrite Hscale in Hscale'. inversion Hscale'; subst m' w1'.
  exists w'. split; [exact Hrun|]. split; [|split].
  - unfold read_file. rewrite Hfs, (walk_file _ _ _ _ (lookup_insert_eq _ _ _)).
    rewrite optimized_content_lines. f_equal. apply content_with_ext.
    intros size Hin. rewrite (Hmap size Hin). reflexivity.
  - intros size Hin.
    destruct (resize_png I img size) as [png|] eqn:Hpng; [|destruct (Hok size Hin Hpng)].
    pose proof (Hfiles size png Hin Hpng) as Hread. unfold read_file in Hread.
    destruct (walk link_limit (fs w1) (scaled_filename cursor_name size))
      as [t c| |] eqn:Hwalk; try discriminate.
    pose proof (walk_regular link_limit (fs w1) (scaled_filename cursor_name size) Hreg1)
      as Hw. rewrite Hwalk in Hw.
    destruct (fs w1 !! scaled_filename cursor_name size) as [[c'|t']|] eqn:E;
      try discriminate.
    rewrite (path_exists_regular _ _ Hreg'), Hfs.
    rewrite lookup_insert_ne by apply cursor_file_not_scaled.
    rewrite E. reflexivity.
  - rewrite Hout', Hout. reflexivity.
Qed.

Lemma config_names_existing_images_witness :
  exists w',
    create_optimized_multisize_config sample_imaging "left_ptr"
      (SrcImage "pointer.png" "pointer.png") [16; 32] empty_world = (Ok tt, w')
    /\ read_file (fs w') "left_ptr.cursor"
       = Some ("# left_ptr cursor - Optimized multi-size" +:+ nl
               +:+ "16 1 1 left_ptr_16x16.png 100" +:+ nl
               +:+ "32 2 2 left_ptr_32x32.png 100" +:+ nl)
    /\ path_exists (fs w') "left_ptr_32x32.png" = true.
Proof.
  destruct (config_names_existing_images sample_imaging
              (SrcImage "pointer.png" "pointer.png") tt "left_ptr" [16; 32] empty_world)
    as (w' & Hrun & Hread & Hfiles & _).
  - intros name target. vm_compute. discriminate.
  - reflexivity.
  - vm_compute. discriminate.
  - intros size _. vm_compute. discriminate.
  - exists w'. split; [exact Hrun|]. split; [exact Hread|].
    apply (Hfiles 32). simpl. auto.
Defined.

(** ** Essential Cursor Synthesizer: what it writes and what it keeps *)

Lemma for_each_noop {S A : Type} (f : A -> M S unit) (l : list A) (s : S) :
  (forall x, In x l -> f x s = (Ok tt, s)) -> for_each f l s = (Ok tt, s).
Proof.
  induction l as [|x l IH]; intros H; simpl; [reflexivity|].
  unfold bind. rewrite (H x) by (simpl; auto).
  apply IH. intros y Hy. apply H. simpl. auto.
Qed.

(** X4. With no source image at all the synthesizer does nothing and
    raises nothing, whatever the primary map and the directory. *)
Theorem essential_without_images (I : imaging) (cursor_map : list (string * string))
    (sizes : list Z) (w : world) :
  create_fullsize_essential_cursors I cursor_map [] sizes w = (Ok tt, w).
Proof.
  unfold create_fullsize_essential_cursors. apply for_each_noop.
  intros [cursor_name fallback] _. unfold essential_cursor.
  destruct (Py.has_key cursor_name cursor_map); [reflexivity|]. simpl.
  unfold_M. destruct (path_exists (fs w) (cursor_file cursor_name)); [reflexivity|].
  simpl. unfold find_image. simpl. rewrite andb_false_r. reflexivity.
Qed.

Lemma find_image_raises_key_error (cursor_map : list (string * string))
    (available_images : list (string * src_image)) (fallback : string) (e : exn) :
  find_image cursor_map available_images fallback = Raise e -> e = KeyError.
Proof.
  unfold find_image.
  destruct (Py.has_key fallback cursor_map && Py.has_key fallback available_images).
  - destruct (Py.getitem fallback cursor_map) as [key|]; [|congruence].
    destruct (Py.getitem key available_images); congruence.
  - destruct available_images as [|[k v] rest]; congruence.
Qed.

Section SynthesizerRegular.

Variable I : imaging.
Variable cursor_map : list (string * string).
Variable available_images : list (string * src_image).
Variable sizes : list Z.

Lemma essential_cursor_regular (entry : string * string) (w w' : world)
    (r : result unit) :
  regular_only (fs w) ->
  essential_cursor I cursor_map available_images sizes entry w = (r, w') ->
  regular_only (fs w')
  /\ r <> Raise OSError
  /\ (forall k node, fs w !! k = Some node ->
        (forall cursor_name size, k <> scaled_filename cursor_name size) ->
        fs w' !! k = Some node).
Proof.
  intros Hreg. destruct entry as [cursor_name fallback]. unfold essential_cursor.
  destruct (Py.has_key cursor_name cursor_map); simpl.
  { intros H. inversion H; subst. split; [exact Hreg|]. split; [discriminate | auto]. }
  unfold_M.
  destruct (path_exists (fs w) (cursor_file cursor_name)) eqn:Hex; simpl.
  { intros H. inversion H; subst. split; [exact Hreg|]. split; [discriminate | auto]. }
  destruct (find_image cursor_map available_images fallback) as [[image_file|]|e] eqn:Hfind;
    cbv beta iota.
  - destruct (config_writer_regular I cursor_name image_file sizes w Hreg)
      as (m & w1 & w2 & _ & Hrun & _ & _ & Hreg2 & Hframe).
    rewrite Hrun. intros H. inversion H; subst.
    split; [exact Hreg2|]. split; [discriminate|].
    intros k node Hk Hpng. rewrite Hframe; [exact Hk | | apply Hpng].
    intros ->. rewrite (path_exists_regular _ _ Hreg), Hk in Hex. discriminate.
  - intros H. inversion H; subst. split; [exact Hreg|]. split; [discriminate | auto].
  - intros H. inversion H; subst. split; [exact Hreg|].
    apply find_image_raises_key_error in Hfind. subst e.
    split; [discriminate | auto].
Qed.

Lemma essential_loop_regular (entries : list (string * string)) (w w' : world)
    (r : result unit) :
  regular_only (fs w) ->
  for_each (essential_cursor I cursor_map available_images sizes) entries w = (r, w') ->
  regular_only (fs w')
  /\ r <> Raise OSError
  /\ (forall k node, fs w !! k = Some node ->
        (forall cursor_name size, k <> scaled_filename cursor_name size) ->
        fs w' !! k = Some node).
Proof.
  revert w. induction entries as [|entry rest IH]; intros w Hreg Hrun; simpl in Hrun.
  - inversion Hrun; subst. split; [exact Hreg|]. split; [discriminate | auto].
  - unfold bind in Hrun.
    destruct (essential_cursor I cursor_map available_images sizes entry w)
      as [r0 w0] eqn:Hstep.
    apply essential_cursor_regular in Hstep as (Hreg0 & Hos & Hkeep); [|exact Hreg].
    destruct r0 as [[]|e].
    + apply IH in Hrun as (Hreg' & Hos' & Hkeep'); [|exact Hreg0].
      split; [exact Hreg'|]. split; [exact Hos'|]. auto.
    + inversion Hrun; subst. auto.
Qed.

(** X5. In a directory without links the synthesizer never fails on the
    file system, and every config file that is there when it starts,
    like every other file that is not a scaled image, is there unchanged
    when it ends. *)
Theorem essential_keeps_existing_configs (w w' : world) (r : result unit) :
  regular_only (fs w) ->
  create_fullsize_essential_cursors I cursor_map available_images sizes w = (r, w') ->
  r <> Raise OSError
  /\ regular_only (fs w')
  /\ (forall cursor_name entry, fs w !! cursor_file cursor_name = Some entry ->
        fs w' !! cursor_file cursor_name = Some entry)
  /\ (forall name entry, fs w !! name = Some entry ->
        (forall cursor_name size, name <> scaled_filename cursor_name size) ->
        fs w' !! name = Some entry).
Proof.
  intros Hreg Hrun.
  apply essential_loop_regular in Hrun as (Hreg' & Hos & Hkeep); [|exact Hreg].
  split; [exact Hos|]. split; [exact Hreg'|]. split; [|exact Hkeep].
  intros cursor_name entry H. apply Hkeep; [exact H|].
  intros cn size. apply cursor_file_not_scaled.
Qed.

End SynthesizerRegular.

Lemma essential_keeps_existing_configs_witness :
  let run := create_fullsize_essential_cursors sample_imaging image_to_cursor_map
               link_then_pointer [16] only_left_ptr in
  fst run <> Raise OSError
  /\ fs (snd run) !! "left_ptr.cursor" = Some (File "# left_ptr").
Proof.
  intros run.
  destruct (essential_keeps_existing_configs sample_imaging image_to_cursor_map
              link_then_pointer [16] only_left_ptr (snd run) (fst run))
    as (Hos & _ & Hkeep & _).
  - intros name target. unfold only_left_ptr. simpl.
    destruct (decide ("left_ptr.cursor" = name)) as [<-|Hne].
    + rewrite lookup_singleton_eq. discriminate.
    + rewrite lookup_singleton_ne by exact Hne. discriminate.
  - apply surjective_pairing.
  - split; [exact Hos|]. apply (Hkeep "left_ptr"). reflexivity.
Defined.






Lemma within_one_hop_exists (d : gmap string node) (name : string) :
  within_one_hop d name -> path_exists d name = true.
Proof.
  intros (t & c & H). unfold path_exists.
  change link_limit with (1 + 39)%nat. rewrite (walk_more_fuel _ _ _ _ _ _ H).
  reflexivity.
Qed.

Lemma find_source_none_intro (d : gmap string node) (group : list string) :
  (forall name, In name group -> path_exists d (cursor_file name) = false) ->
  find_source d group = None.
Proof.
  induction group as [|cursor rest IH]; intros H; simpl; [reflexivity|].
  rewrite (H cursor) by (simpl; auto). apply IH. intros n Hn. apply H. simpl. auto.
Qed.

(** A settled group is passed over, whatever the platform. *)
Lemma link_group_settled (P : platform) (group : list string) (w : world) :
  group_settled (fs w) group -> link_group P group w = (Ok tt, w).
Proof.
  intros Hs. unfold link_group. unfold_M.
  destruct (find_source (fs w) group) as [source|] eqn:Hsource; [|reflexivity].
  destruct Hs as [Hnone|Hall]; [congruence|].
  destruct (String.eqb source ""); [reflexivity|].
  apply for_each_noop. intros alias Hin. unfold link_alias.
  destruct (String.eqb alias source); [reflexivity|]. simpl.
  unfold_M. rewrite (Hall alias Hin). reflexivity.
Qed.

Lemma link_groups_settle (P : platform) (groups : list (list string)) (w : world) :
  distinct (concat groups) = true ->
  Py.mem "" (concat groups) = false ->
  (forall group, In group groups -> group_regular (fs w) group) ->
  exists w',
    for_each (link_group P) groups w = (Ok tt, w')
    /\ (forall k, (forall n, In n (concat groups) -> k <> cursor_file n) ->
          fs w' !! k = fs w !! k)
    /\ (forall group, In group groups -> group_settled (fs w') group).
Proof.
  revert w. induction groups as [|group rest IH]; intros w Hdist Hnamed Hreg.
  - exists w. split; [reflexivity|]. split; [reflexivity | intros group []].
  - simpl in Hdist, Hnamed.
    destruct (distinct_app _ _ Hdist) as [Hdist' Hapart].
    assert (Hnamed' : Py.mem "" (concat rest) = false).
    { apply mem_not_In. intros Hin.
      assert (Hin' : In "" (group ++ concat rest)) by (apply in_or_app; auto).
      apply mem_In in Hin'. congruence. }
    assert (Hstep : exists w1,
      link_group P group w = (Ok tt, w1)
      /\ (forall k, (forall n, In n group -> k <> cursor_file n) ->
            fs w1 !! k = fs w !! k)
      /\ ((find_source (fs w) group = None /\ w1 = w)
          \/ forall name, In name group -> within_one_hop (fs w1) (cursor_file name))).
    { destruct (find_source (fs w) group) as [source|] eqn:Hsource.
      - assert (Hne : source <> "").
        { intros ->. apply find_source_In in Hsource.
          assert (Hin' : In "" (group ++ concat rest)) by (apply in_or_app; auto).
          apply mem_In in Hin'. congruence. }
        destruct (link_group_regular P group w source Hsource Hne)
          as (content & w1 & _ & Hrun & _ & Hhop & Hframe).
        { apply Hreg. simpl. auto. }
        exists w1. auto.
      - exists w. split; [|split; [reflexivity | auto]].
        unfold link_group. unfold_M. rewrite Hsource. reflexivity. }
    destruct Hstep as (w1 & Hrun & Hframe & Hhead).
    assert (Hentry : forall name, In name (concat rest) ->
              fs w1 !! cursor_file name = fs w !! cursor_file name).
    { intros name Hname. apply Hframe. intros n Hn Heq.
      apply cursor_file_inj in Heq. subst n.
      apply (Hapart name name Hn Hname). reflexivity. }
    destruct (IH w1 Hdist' Hnamed') as (w' & Hrest & Hframe' & Hsettled).
    { intros g Hg name target Hname.
      rewrite (Hentry name) by (apply in_concat; eauto).
      apply (Hreg g); simpl; auto. }
    exists w'. simpl. unfold bind. rewrite Hrun. split; [exact Hrest|]. split.
    + intros k Hk. rewrite Hframe' by (intros n Hn; apply Hk, in_or_app; auto).
      apply Hframe. intros n Hn. apply Hk, in_or_app. auto.
    + intros g [<-|Hg]; [|auto].
      assert (Hsame : forall name, In name group ->
                fs w' !! cursor_file name = fs w1 !! cursor_file name).
      { intros name Hname. apply Hframe'. intros n Hn Heq.
        apply cursor_file_inj in Heq. subst n.
        apply (Hapart name name Hname Hn). reflexivity. }
      destruct Hhead as [[Hnone ->]|Hhop].
      * left. rewrite (find_source_same (fs w) (fs w') group); [exact Hnone|].
        intros name Hname. apply path_exists_same_entry; [apply Hsame, Hname|].
        intros target. apply (Hreg group); simpl; auto.
      * right. intros name Hname. apply within_one_hop_exists.
        eapply within_one_hop_keeps; [|apply Hhop, Hname].
        eapply link_groups_keep; eauto.
Qed.

(** X7. On a directory without symbolic links the Alias Linker returns and
    keeps every entry, and a second run, on any platform, passes over
    every group: it leaves the whole process state as the first run left
    it. *)
Theorem alias_linker_idempotent (P P2 : platform) (w : world) :
  regular_only (fs w) ->
  exists w',
    create_fullsize_aliases P w = (Ok tt, w')
    /\ fs w ⊆ fs w'
    /\ create_fullsize_aliases P2 w' = (Ok tt, w').
Proof.
  intros Hreg.
  destruct (link_groups_settle P alias_groups w alias_groups_distinct alias_groups_named)
    as (w' & Hrun & _ & Hsettled).
  { intros group _ name target _. apply Hreg. }
  exists w'. split; [exact Hrun|]. split.
  - eapply link_groups_keep. exact Hrun.
  - unfold create_fullsize_aliases. apply for_each_noop.
    intros group Hin. apply link_group_settled, Hsettled, Hin.
Qed.

Lemma only_left_ptr_regular : regular_only (fs only_left_ptr).
Proof.
  intros name target. unfold only_left_ptr. simpl.
  destruct (decide ("left_ptr.cursor" = name)) as [<-|Hne].
  - rewrite lookup_singleton_eq. discriminate.
  - rewrite lookup_singleton_ne by exact Hne. discriminate.
Qed.

Lemma alias_linker_idempotent_witness :
  exists w',
    create_fullsize_aliases linking_platform only_left_ptr = (Ok tt, w')
    /\ fs only_left_ptr ⊆ fs w'
    /\ create_fullsize_aliases copying_platform w' = (Ok tt, w').
Proof.
  exact (alias_linker_idempotent linking_platform copying_platform only_left_ptr
           only_left_ptr_regular).
Defined.

(** X8. On a directory without symbolic links the whole Alias Linker
    returns, and every name of every group that had a config file
    resolves, afterwards, through at most one link to a regular file. *)
Theorem alias_linker_one_hop (P : platform) (w : world) :
  regular_only (fs w) ->
  exists w',
    create_fullsize_aliases P w = (Ok tt, w')
    /\ (forall group, In group alias_groups -> find_source (fs w) group <> None ->
          forall name, In name group -> within_one_hop (fs w') (cursor_file name)).
Proof.
  intros Hreg.
  destruct (link_groups_regular P alias_groups w alias_groups_distinct alias_groups_named)
    as (w' & Hrun & Hhops).
  { intros group _ name target _. apply Hreg. }
  exists w'. split; [exact Hrun | exact Hhops].
Qed.

Lemma alias_linker_one_hop_witness :
  exists w',
    create_fullsize_aliases linking_platform only_left_ptr = (Ok tt, w')
    /\ within_one_hop (fs w') "top_left_arrow.cursor".
Proof.
  destruct (alias_linker_one_hop linking_platform only_left_ptr only_left_ptr_regular)
    as (w' & Hrun & Hhops).
  exists w'. split; [exact Hrun|].
  change (within_one_hop (fs w') (cursor_file "top_left_arrow")).
  apply (Hhops ["left_ptr"; "default"; "arrow"; "top_left_arrow"]).
  - simpl. auto.
  - vm_compute. discriminate.
  - simpl. auto.
Defined.

(** ** Cursor Compiler Driver: the list of config files *)

Lemma In_insert_sorted (x y : string) (l : list string) :
  In x (insert_sorted y l) <-> x = y \/ In x l.
Proof.
  induction l as [|z l IH]; simpl.
  - intuition.
  - destruct (String.leb y z); simpl; [intuition|].
    rewrite IH. intuition.
Qed.

Lemma In_sorted (x : string) (l : list string) : In x (sorted l) <-> In x l.
Proof.
  induction l as [|y l IH]; simpl; [tauto|].
  rewrite In_insert_sorted, IH. intuition.
Qed.

Lemma In_keys (d : gmap string node) (name : string) :
  In name (map fst (map_to_list d)) <-> exists entry, d !! name = Some entry.
Proof.
  rewrite in_map_iff. split.
  - intros ([k entry] & <- & Hin). exists entry.
    apply list_elem_of_In, elem_of_map_to_list in Hin. exact Hin.
  - intros [entry H]. exists (name, entry). split; [reflexivity|].
    apply list_elem_of_In, elem_of_map_to_list. exact H.
Qed.

Lemma In_config_files (d : gmap string node) (name : string) :
  In name (config_files d) <->
  is_config_name name = true /\ exists content, d !! name = Some (File content).
Proof.
  unfold config_files.
  rewrite List.filter_In, In_sorted, List.filter_In, In_keys.
  unfold is_symlink. split.
  - intros [[[entry He] Hc] Hl]. split; [exact Hc|].
    rewrite He in Hl. destruct entry as [c|t]; [eauto | discriminate].
  - intros [Hc [content He]]. rewrite He. eauto.
Qed.

(** ** Config names and cursor names *)

Lemma substring_prefix (s t : string) :
  String.substring 0 (String.length s) (s +:+ t) = s.
Proof.
  induction s as [|a s IH].
  - simpl. destruct t; reflexivity.
  - rewrite app_cons. simpl. rewrite IH. reflexivity.
Qed.

Lemma substring_suffix (s t : string) :
  String.substring (String.length s) (String.length t) (s +:+ t) = t.
Proof.
  induction s as [|a s IH].
  - simpl. change ("" +:+ t) with t.
    rewrite <- (app_nil_r t) at 2. apply substring_prefix.
  - rewrite app_cons. simpl. exact IH.
Qed.

Lemma contains_slash_cons (a : ascii) (r : string) :
  Py.contains "/" (String a r) =
  if Ascii.ascii_dec "/" a then true else Py.contains "/" r.
Proof.
  change (Py.contains "/" (String a r))
    with (if String.prefix "/" (String a r) then true else Py.contains "/" r).
  change (String.prefix "/" (String a r))
    with (if Ascii.ascii_dec "/" a then String.prefix "" r else false).
  destruct (Ascii.ascii_dec "/" a); [destruct r; reflexivity | reflexivity].
Qed.

Lemma contains_slash_app (s t : string) :
  Py.contains "/" (s +:+ t) = Py.contains "/" s || Py.contains "/" t.
Proof.
  induction s as [|a s IH].
  - change ("" +:+ t) with t. destruct t; reflexivity.
  - rewrite app_cons, !contains_slash_cons.
    destruct (Ascii.ascii_dec "/" a); [reflexivity | exact IH].
Qed.

Lemma endswith_cursor_file (name : string) :
  Py.endswith (cursor_file name) ".cursor" = true.
Proof.
  unfold Py.endswith, cursor_file. cbv zeta. rewrite length_app_str.
  replace (String.length name + String.length ".cursor" - String.length ".cursor")%nat
    with (String.length name) by lia.
  rewrite substring_suffix, String.eqb_refl, andb_true_r.
  apply Nat.leb_le. lia.
Qed.

(** X10. The config file of a cursor, whose name is not empty and holds no
    [/], is picked up by the driver when it is a regular file of the
    directory, and its stem, the name the driver gives the compiled
    cursor, is the cursor name. *)
Theorem config_name_round_trip (d : gmap string node) (cursor_name content : string) :
  cursor_name <> "" ->
  Py.contains "/" cursor_name = false ->
  d !! cursor_file cursor_name = Some (File content) ->
  In (cursor_file cursor_name) (config_files d)
  /\ stem (cursor_file cursor_name) = cursor_name.
Proof.
  intros Hne Hslash Hfile. split.
  - apply In_config_files. split; [|eauto].
    unfold is_config_name. rewrite endswith_cursor_file.
    unfold cursor_file. rewrite contains_slash_app, Hslash. reflexivity.
  - unfold stem.
    destruct (String.eqb_spec (cursor_file cursor_name) ".cursor") as [Heq|_].
    + apply (cursor_file_inj cursor_name "") in Heq. contradiction.
    + unfold cursor_file. rewrite length_app_str.
      replace (String.length cursor_name + String.length ".cursor" - 7)%nat
        with (String.length cursor_name) by (simpl; lia).
      apply substring_prefix.
Qed.

Lemma config_name_round_trip_witness :
  In "hand2.cursor" (config_files (fs two_configs))
  /\ stem "hand2.cursor" = "hand2".
Proof.
  apply (config_name_round_trip (fs two_configs) "hand2" "# hand2").
  - discriminate.
  - reflexivity.
  - vm_compute. reflexivity.
Defined.

(** ** Cursor Compiler Driver: when the program is there *)

Lemma compile_files_all (P : platform) (cursors_dir : dir_path) (total : nat) :
  (forall d args, subprocess_run P d args <> ProgramNotFound) ->
  forall (files : list string) (i : nat) (successful failed : Z) (w : world),
  exists (successful' failed' : Z) (w' : world),
    compile_files P cursors_dir total i files successful failed w
    = (Ok (successful', failed'), w')
    /\ successful' + failed' = successful + failed + Z.of_nat (length files)
    /\ successful <= successful'
    /\ failed <= failed'
    /\ cwd w' = cwd w
    /\ has_dir w' = has_dir w
    /\ spawned w' = (spawned w ++ map xcursorgen_args files)%list.
Proof.
  intros Hthere files.
  induction files as [|config_file rest IH]; intros i successful failed w.
  - exists successful, failed, w. split; [reflexivity|].
    simpl. rewrite List.app_nil_r. repeat split; lia.
  - destruct (subprocess_run P (fs w) ["xcursorgen"; config_file; stem config_file])
      as [returncode stderr after| |after|e after] eqn:Hrun.
    + rewrite (compile_files_completed P cursors_dir total i config_file rest
                 successful failed w returncode stderr after Hrun).
      cbv zeta.
      destruct ((returncode =? 0)%Z && path_exists after (stem config_file)).
      * match goal with |- context [compile_files _ _ _ _ _ _ _ ?w1] =>
          destruct (IH (S i) (successful + 1) failed w1)
            as (s' & f' & w' & Hloop & Hsum & Hs & Hf & Hcwd & Hdir & Hsp)
        end.
        exists s', f', w'. split; [exact Hloop|]. simpl in *.
        rewrite Hsp, <- List.app_assoc. repeat split; try lia; assumption.
      * match goal with |- context [compile_files _ _ _ _ _ _ _ ?w1] =>
          destruct (IH (S i) successful (failed + 1) w1)
            as (s' & f' & w' & Hloop & Hsum & Hs & Hf & Hcwd & Hdir & Hsp)
        end.
        exists s', f', w'. split; [exact Hloop|]. simpl in *.
        rewrite Hsp, <- List.app_assoc. repeat split; try lia; assumption.
    + destruct (Hthere _ _ Hrun).
    + rewrite (compile_files_timeout P cursors_dir total i config_file rest
                 successful failed w after Hrun).
      match goal with |- context [compile_files _ _ _ _ _ _ _ ?w1] =>
        destruct (IH (S i) successful (failed + 1) w1)
          as (s' & f' & w' & Hloop & Hsum & Hs & Hf & Hcwd & Hdir & Hsp)
      end.
      exists s', f', w'. split; [exact Hloop|]. simpl in *.
      rewrite Hsp, <- List.app_assoc. repeat split; try lia; assumption.
    + rewrite (compile_files_error P cursors_dir total i config_file rest
                 successful failed w e after Hrun).
      match goal with |- context [compile_files _ _ _ _ _ _ _ ?w1] =>
        destruct (IH (S i) successful (failed + 1) w1)
          as (s' & f' & w' & Hloop & Hsum & Hs & Hf & Hcwd & Hdir & Hsp)
      end.
      exists s', f', w'. split; [exact Hloop|]. simpl in *.
      rewrite Hsp, <- List.app_assoc. repeat split; try lia; assumption.
Qed.

(** X11. When [xcursorgen] can be started, the driver returns; it starts the
    program once for each config file of its list, in the order of the
    list, and for nothing else; every file is counted once, as a success
    or as a failure, in the closing report; and the working directory at
    the end is the one at the start. *)
Theorem driver_attempts_every_config (P : platform) (theme_dir : dir_path) (w : world) :
  (forall d args, subprocess_run P d args <> ProgramNotFound) ->
  has_dir w = true ->
  exists (w' : world) (successful failed : Z),
    generate_fullsize_cursors P theme_dir w = (Ok tt, w')
    /\ spawned w' = (spawned w ++ map xcursorgen_args (config_files (fs w)))%list
    /\ 0 <= successful /\ 0 <= failed
    /\ successful + failed = Z.of_nat (length (config_files (fs w)))
    /\ In (MsgComplete successful failed) (stdout w')
    /\ cwd w' = cwd w.
Proof.
  intros Hthere Hdir.
  rewrite generate_fullsize_cursors_unfold by exact Hdir.
  match goal with |- context [compile_files _ _ _ _ _ _ _ ?w1] =>
    destruct (compile_files_all P (cursors_dir_of theme_dir)
                (length (config_files (fs w))) Hthere (config_files (fs w)) 1%nat 0 0 w1)
      as (s' & f' & w' & Hloop & Hsum & Hs & Hf & Hcwd & _ & Hsp)
  end.
  rewrite Hloop. unfold_M. simpl in *.
  destruct (s' >? 0)%Z; eexists _, s', f'; (split; [reflexivity|]); simpl;
    (split; [exact Hsp|]); (split; [lia|]); (split; [lia|]); (split; [lia|]);
    (split; [|exact Hcwd]);
    rewrite !in_app_iff; simpl; auto.
Qed.

Lemma driver_attempts_every_config_witness :
  exists (w' : world) (successful failed : Z),
    generate_fullsize_cursors slow_platform (DirPath false ["fullsize_pro_cursors"])
      two_configs = (Ok tt, w')
    /\ spawned w' = [["xcursorgen"; "hand2.cursor"; "hand2"];
                     ["xcursorgen"; "left_ptr.cursor"; "left_ptr"]]
    /\ successful + failed = 2
    /\ cwd w' = ["home"].
Proof.
  destruct (driver_attempts_every_config slow_platform
              (DirPath false ["fullsize_pro_cursors"]) two_configs)
    as (w' & s & f & Hrun & Hsp & _ & _ & Hsum & _ & Hcwd).
  - intros d args. discriminate.
  - reflexivity.
  - exists w', s, f. split; [exact Hrun|].
    rewrite config_files_two_configs in Hsp, Hsum.
    split; [exact Hsp|]. split; [exact Hsum | exact Hcwd].
Defined.











Lemma theme_run (I : imaging) (P : platform) (image_files : list src_image)
    (theme_name : string) (reports : list theme_report) (w w1 w2 w3 w4 : world) :
  for_each (primary_cursor I (images_by_name image_files) standard_sizes)
    image_to_cursor_map
    {| fs := fs w; has_dir := true; stdout := stdout w; cwd := cwd w;
       spawned := spawned w |} = (Ok tt, w1) ->
  create_fullsize_essential_cursors I image_to_cursor_map (images_by_name image_files)
    standard_sizes w1 = (Ok tt, w2) ->
  create_fullsize_aliases P w2 = (Ok tt, w3) ->
  create_fullsize_theme_index theme_name standard_sizes w3 = (Ok tt, w4) ->
  create_fullsize_cursor_theme I P image_files theme_name (reports, w)
  = (Ok theme_name,
     ((reports ++ [RepCreating theme_name; RepSupportedSizes standard_sizes;
                   RepCreated theme_name])%list, w4)).
Proof.
  intros H1 H2 H3 H4.
  unfold create_fullsize_cursor_theme, report, mkdir_cursors.
  unfold bind, ret, modify, lift. cbn [fst snd].
  rewrite H1. cbv beta iota. cbn [fst snd].
  rewrite H2. cbv beta iota. cbn [fst snd].
  rewrite H3. cbv beta iota. cbn [fst snd].
  rewrite H4. cbv beta iota. cbn [fst snd].
  rewrite <- !List.app_assoc. reflexivity.
Qed.



(** X13. With an empty image folder, and no config of an alias group in the
    cursors directory, theme creation still returns the theme and
    reports it created: it makes the cursors directory and writes the
    theme index, and no cursor config at all. *)
Theorem theme_without_images (I : imaging) (P : platform) (theme_name : string)
    (reports : list theme_report) (w : world) :
  (forall group, In group alias_groups -> find_source (fs w) group = None) ->
  (forall target, fs w !! index_file <> Some (Link target)) ->
  create_fullsize_cursor_theme I P [] theme_name (reports, w)
  = (Ok theme_name,
     ((reports ++ [RepCreating theme_name; RepSupportedSizes standard_sizes;
                   RepCreated theme_name])%list,
      {| fs := <[index_file := File (theme_index_content theme_name standard_sizes)]>
                 (fs w);
         has_dir := true; stdout := stdout w; cwd := cwd w; spawned := spawned w |})).
Proof.
  intros Hnone Hindex.
  pose (w0 := {| fs := fs w; has_dir := true; stdout := stdout w; cwd := cwd w;
                 spawned := spawned w |}).
  apply (theme_run I P [] theme_name reports w w0 w0 w0).
  - apply for_each_noop. intros [image cursor] _. reflexivity.
  - unfold create_fullsize_essential_cursors. apply for_each_noop.
    intros [cursor_name fallback] _. unfold essential_cursor.
    destruct (Py.has_key cursor_name image_to_cursor_map); [reflexivity|]. simpl.
    unfold_M. destruct (path_exists (fs w0) (cursor_file cursor_name)); [reflexivity|].
    simpl. unfold find_image. simpl. rewrite andb_false_r. reflexivity.
  - unfold create_fullsize_aliases. apply for_each_noop.
    intros group Hgroup. unfold link_group. unfold_M.
    change (fs w0) with (fs w). rewrite (Hnone group Hgroup). reflexivity.
  - unfold create_fullsize_theme_index, write_file. change (fs w0) with (fs w).
    destruct (fs w !! index_file) as [[c|l]|] eqn:E.
    + rewrite (walk_file _ _ _ _ E). reflexivity.
    + destruct (Hindex l eq_refl).
    + rewrite (walk_none _ _ _ E). reflexivity.
Qed.

Lemma theme_without_images_witness :
  create_fullsize_cursor_theme broken_imaging copying_platform [] "fullsize_pro_cursors"
    ([], {| fs := ∅; has_dir := false; stdout := []; cwd := ["home"]; spawned := [] |})
  = (Ok "fullsize_pro_cursors",
     ([RepCreating "fullsize_pro_cursors"; RepSupportedSizes standard_sizes;
       RepCreated "fullsize_pro_cursors"],
      {| fs := {[ index_file :=
                    File (theme_index_content "fullsize_pro_cursors" standard_sizes) ]};
         has_dir := true; stdout := []; cwd := ["home"]; spawned := [] |})).
Proof.
  apply (theme_without_images broken_imaging copying_platform "fullsize_pro_cursors" []
           {| fs := ∅; has_dir := false; stdout := []; cwd := ["home"]; spawned := [] |}).
  - intros group Hgroup. apply find_source_none_intro. intros name _. reflexivity.
  - intros target. simpl. rewrite lookup_empty. discriminate.
Defined.

(** ** Basic Config Writer *)

(** X14. From size 2 on, the hotspot the basic writer puts on a line lies
    inside the bitmap of that size, for every cursor name. *)
Theorem basic_hotspot_within_bitmap (cursor_name : string) (size : Z) :
  2 <= size ->
  let '(x, y) := basic_hotspot cursor_name size in
  0 <= x < size /\ 0 <= y < size.
Proof.
  intros Hs. unfold basic_hotspot.
  repeat match goal with
         | |- context [if ?b then _ else _] => destruct b
         end; split; div_lia.
Qed.

Lemma basic_hotspot_within_bitmap_witness :
  let '(x, y) := basic_hotspot "hand2" 48 in
  0 <= x < 48 /\ 0 <= y < 48.
Proof. apply (basic_hotspot_within_bitmap "hand2" 48). lia. Defined.
